(** * Expression evaluator: infix to postfix conversion and postfix evaluation

    A shallow embedding of the two evaluator variants of the repository:
    the one with parenthesis support (top level of this file) and the older
    one of [expression_evaluator.cpp] (module [Legacy]).

    - [double] is IEEE 754 binary64, here Rocq's primitive [float];
    - [std::string] is [string], [char] is [ascii];
    - [std::stack<T>] is [list T] with the top of the stack at the head;
    - [std::size_t] is a 64-bit unsigned integer, a [Z] reduced modulo 2^64;
    - a call either returns, throws a C++ exception, or reads the expression
      outside its bounds (undefined behaviour): the type [outcome]. *)

From Stdlib Require Import ZArith List String Ascii Bool Lia.
From Stdlib Require Import Floats.
Import ListNotations.

Open Scope string_scope.
Open Scope Z_scope.

(** ** Outcomes of a call *)

(** The exceptions the two variants can raise. *)
Inductive exception : Type :=
| runtime_error (what : string)     (* throw std::runtime_error(what) *)
| map_out_of_range (key : string)   (* std::out_of_range of operator_properties.at(key) *)
| stod_invalid_argument             (* std::invalid_argument of std::stod, uncaught *)
| stod_out_of_range.                (* std::out_of_range of std::stod, uncaught *)

Inductive outcome (A : Type) : Type :=
| Returns (a : A)
| Throws (e : exception)
| OutOfBounds (index : Z).          (* expression[index] read where the string has no character *)

Arguments Returns {A} a.
Arguments Throws {A} e.
Arguments OutOfBounds {A} index.

Definition bind {A B : Type} (m : outcome A) (k : A -> outcome B) : outcome B :=
  match m with
  | Returns a => k a
  | Throws e => Throws e
  | OutOfBounds index => OutOfBounds index
  end.

Notation "x <- m ;; k" := (bind m (fun x => k))
  (at level 61, m at next level, right associativity).
Notation "' p <- m ;; k" := (bind m (fun p => k))
  (at level 61, p pattern, m at next level, right associativity).

(** The error kinds of the specification, as the messages the code throws. *)
Definition EmptyExpression : exception := runtime_error "Empty expression".
Definition MismatchedParentheses : exception := runtime_error "Mismatched parentheses".
Definition DivisionByZero : exception := runtime_error "Division by zero".
Definition InsufficientOperands : exception :=
  runtime_error "Invalid expression: not enough operands".
Definition MalformedExpression : exception :=
  runtime_error "Invalid expression: too many operands".
Definition InvalidOperator (op : string) : exception :=
  runtime_error ("Invalid operator: " ++ op).
Definition newline : string := String (ascii_of_nat 10) "".
Definition InvalidNumber (token : string) : exception :=
  runtime_error ("Invalid number: " ++ token ++ newline).
Definition NumberOutOfRange (token : string) : exception :=
  runtime_error ("Number out of range: " ++ token ++ newline).

(** ** Characters and strings *)

Definition code (c : ascii) : Z := Z.of_nat (nat_of_ascii c).

(** [isdigit] of <cctype> in the C locale. *)
Definition isdigit (c : ascii) : bool := (48 <=? code c) && (code c <=? 57).

Definition size_t_modulus : Z := 2 ^ 64.

(** Arithmetic on [std::size_t] wraps around. *)
Definition size_t_wrap (z : Z) : Z := z mod size_t_modulus.

Definition string_length (s : string) : Z := Z.of_nat (String.length s).

(** The character of [s] at [index], [None] when [index] is not below the
    length of [s]. (C++ defines [s[s.length()]] as the null character and
    nothing beyond; the scan never reads at the length itself, see
    [infix_to_postfix_out_of_bounds_iff].) *)
Fixpoint string_at (s : string) (index : Z) : option ascii :=
  match s with
  | EmptyString => None
  | String c rest => if index =? 0 then Some c else string_at rest (index - 1)
  end.

(** [s += c] *)
Definition push_back (s : string) (c : ascii) : string := s ++ String c "".

(** [s.empty()] *)
Definition string_empty (s : string) : bool :=
  match s with EmptyString => true | String _ _ => false end.

(** ** The C++ library functions the evaluator calls

    [std::stod] converts through [strtod]; both are library code, modelled
    here on the C standard's grammar with glibc's rounding and range errors.
    [std::pow] stays a parameter of the evaluator. *)

(** [isspace] of <cctype> in the C locale. *)
Definition isspace (c : ascii) : bool :=
  (code c =? 32) || ((9 <=? code c) && (code c <=? 13)).

Definition digit_value (c : ascii) : option Z :=
  if isdigit c then Some (code c - 48) else None.

Definition hex_value (c : ascii) : option Z :=
  let n := code c in
  if isdigit c then Some (n - 48)
  else if (65 <=? n) && (n <=? 70) then Some (n - 55)
  else if (97 <=? n) && (n <=? 102) then Some (n - 87)
  else None.

(** ASCII lower case, for the case-insensitive keywords. *)
Definition tolower (c : ascii) : ascii :=
  let n := code c in
  if (65 <=? n) && (n <=? 90) then ascii_of_nat (Z.to_nat (n + 32)) else c.

Fixpoint skip_spaces (l : list ascii) : list ascii :=
  match l with
  | c :: rest => if isspace c then skip_spaces rest else l
  | [] => []
  end.

(** The longest run of digits in front of [l], read in base [base] after
    [acc]: its value, how many digits it has, and what follows it. *)
Fixpoint take_digits (value : ascii -> option Z) (base : Z) (l : list ascii)
    (acc count : Z) : Z * Z * list ascii :=
  match l with
  | c :: rest =>
      match value c with
      | Some d => take_digits value base rest (acc * base + d) (count + 1)
      | None => (acc, count, l)
      end
  | [] => (acc, count, [])
  end.

(** Whether [l] starts with the keyword [word], letters compared without case. *)
Fixpoint starts_with (word l : list ascii) : bool :=
  match word, l with
  | [], _ => true
  | w :: word', c :: rest => Ascii.eqb w (tolower c) && starts_with word' rest
  | _ :: _, [] => false
  end.

(** An optional exponent part: the marker, an optional sign and at least one
    decimal digit; 0 when there is none. *)
Definition exponent_part (lower upper : ascii) (l : list ascii) : Z :=
  match l with
  | c :: rest =>
      if Ascii.eqb c lower || Ascii.eqb c upper then
        let '(negative, digits) :=
          match rest with
          | "-"%char :: r => (true, r)
          | "+"%char :: r => (false, r)
          | _ => (false, rest)
          end in
        let '(e, count, _) := take_digits digit_value 10 digits 0 0 in
        if count =? 0 then 0 else if negative then - e else e
      else 0
  | [] => 0
  end.

(** The binary64 number nearest to [num / den] (ties to even), for positive
    [num] and [den], and whether the conversion is out of range: the value
    overflows, or it is below the normal range and inexact. *)
Definition round_to_double (num den : Z) : float * bool :=
  let e0 := Z.log2 num - Z.log2 den - 52 in
  let below := if 0 <=? e0 then num <? den * 2 ^ (e0 + 52)
               else num * 2 ^ (- e0) <? den * 2 ^ 52 in
  let e := Z.max (if below then e0 - 1 else e0) (-1074) in
  let n := if 0 <=? e then num else num * 2 ^ (- e) in
  let d := if 0 <=? e then den * 2 ^ e else den in
  let q := n / d in
  let r := n mod d in
  let m := if (d <? 2 * r) || ((d =? 2 * r) && Z.odd q) then q + 1 else q in
  if (971 <? e) || ((e =? 971) && (m =? 2 ^ 53)) then (infinity, true)
  else (Z.ldexp (of_uint63 (Uint63.of_Z m)) e,
        (e =? -1074) && (m <? 2 ^ 52) && negb (r =? 0)).

(** [mantissa * base ^ exponent] as a double, [digits] bounding the length of
    [mantissa] in bits (base 2) or decimal digits (base 10). *)
Definition scale_to_double (base mantissa digits exponent : Z) : float * bool :=
  if mantissa =? 0 then (zero, false)
  else if 1100 <=? exponent then (infinity, true)
  else if digits + exponent <=? -1100 then (zero, true)
  else if 0 <=? exponent then round_to_double (mantissa * base ^ exponent) 1
  else round_to_double mantissa (base ^ (- exponent)).

Inductive strtod_result : Type :=
| NoConversion                               (* endptr == nptr *)
| Converted (value : float) (erange : bool). (* the value, and errno == ERANGE *)

(** A digit sequence with an optional radix character, in base 10 or 16:
    mantissa, number of digits, number of digits after the point, the rest. *)
Definition digit_sequence (value : ascii -> option Z) (base : Z) (l : list ascii)
    : Z * Z * Z * list ascii :=
  let '(int_part, int_count, after_int) := take_digits value base l 0 0 in
  match after_int with
  | "."%char :: fraction =>
      let '(mantissa, frac_count, rest) :=
        take_digits value base fraction int_part 0 in
      (mantissa, int_count + frac_count, frac_count, rest)
  | _ => (int_part, int_count, 0, after_int)
  end.

Definition strtod_unsigned (l : list ascii) : strtod_result :=
  if starts_with ["i"; "n"; "f"]%char l then Converted infinity false
  else if starts_with ["n"; "a"; "n"]%char l then Converted nan false
  else
    let hex :=
      match l with
      | "0"%char :: x :: digits =>
          if Ascii.eqb (tolower x) "x" then
            let '(mantissa, count, frac_count, rest) :=
              digit_sequence hex_value 16 digits in
            if count =? 0 then None
            else
              let '(value, erange) :=
                scale_to_double 2 mantissa (4 * count)
                  (exponent_part "p" "P" rest - 4 * frac_count) in
              Some (Converted value erange)
          else None
      | _ => None
      end in
    match hex with
    | Some result => result
    | None =>
        let '(mantissa, count, frac_count, rest) :=
          digit_sequence digit_value 10 l in
        if count =? 0 then NoConversion
        else
          let '(value, erange) :=
            scale_to_double 10 mantissa count
              (exponent_part "e" "E" rest - frac_count) in
          Converted value erange
    end.

(** [strtod] of <cstdlib> in the C locale, as glibc implements it: leading
    white space, an optional sign, then INF, NAN, a hexadecimal or a decimal
    floating constant, rounded to nearest; what follows the longest such
    prefix is ignored. *)
Definition strtod (s : string) : strtod_result :=
  let l := skip_spaces (list_ascii_of_string s) in
  let '(negative, body) :=
    match l with
    | "-"%char :: r => (true, r)
    | "+"%char :: r => (false, r)
    | _ => (false, l)
    end in
  match strtod_unsigned body with
  | NoConversion => NoConversion
  | Converted value erange =>
      Converted (if negative then (- value)%float else value) erange
  end.


Inductive stod_result : Type :=
| stod_value (d : float)
| stod_invalid       (* no conversion could be performed: std::invalid_argument *)
| stod_range.        (* strtod set errno to ERANGE: std::out_of_range *)

(** [std::stod(s)]: the string is read up to its first null character. *)
Definition stod (s : string) : stod_result :=
  match strtod s with
  | NoConversion => stod_invalid
  | Converted value true => stod_range
  | Converted value false => stod_value value
  end.

(** ** The operator table ([expression_evaluator.hpp]) *)

Record OperatorProperty : Type := {
  priority : Z;
  left_associative : bool
}.

Inductive Operator : Type :=
| Addition
| Subtraction
| Multiplication
| Division
| Exponentiation.

(** priorities and left associativity of arithmetic operators *)
Definition operator_properties : list (string * OperatorProperty) :=
  [ ("+", {| priority := 1; left_associative := true |});
    ("-", {| priority := 1; left_associative := true |});
    ("*", {| priority := 2; left_associative := true |});
    ("/", {| priority := 2; left_associative := true |});
    ("^", {| priority := 3; left_associative := false |}) ].

(** [table.at(key)]: throws [std::out_of_range] when the key is absent. *)
Fixpoint map_at (table : list (string * OperatorProperty)) (key : string)
    : outcome OperatorProperty :=
  match table with
  | [] => Throws (map_out_of_range key)
  | (k, v) :: rest => if String.eqb k key then Returns v else map_at rest key
  end.

(** ** Conversion state shared by the two variants *)

(** The locals of [infix_to_postfix]. *)
Record scan_state : Type := {
  output : list string;        (* std::stack, top first *)
  Operators : list string;     (* std::stack, top first *)
  current_num : string;
  previous_num : bool          (* tracks if last character was a number *)
}.

Definition initial_state : scan_state :=
  {| output := []; Operators := []; current_num := ""; previous_num := false |}.

(** Modelled from the spec: [reverse_stack], called by [infix_to_postfix] and
    defined in no source file. Section 4.1: the output collected during the
    scan "must be reversed once at the end to yield true postfix order"; the
    call site says "reverse the output stack to get correct order". The token
    pushed first ends on top. *)
Definition reverse_stack (s : list string) : list string := rev s.

(** [while (!Operators.empty()) { output.push(Operators.top()); Operators.pop(); }] *)
Fixpoint push_rest (out ops : list string) : list string :=
  match ops with
  | [] => out
  | top :: rest => push_rest (top :: out) rest
  end.

(** checks whether string is a number:
    [s.find_first_of("0123456789.") != std::string::npos] *)
Fixpoint is_number (s : string) : bool :=
  match s with
  | EmptyString => false
  | String c rest => isdigit c || Ascii.eqb c "." || is_number rest
  end.

(** converts arithmetic operator to an Operator enum *)
Definition operator_to_enum (op : string) : outcome Operator :=
  if String.eqb op "+" then Returns Addition
  else if String.eqb op "-" then Returns Subtraction
  else if String.eqb op "*" then Returns Multiplication
  else if String.eqb op "/" then Returns Division
  else if String.eqb op "^" then Returns Exponentiation
  else Throws (InvalidOperator op).

(** ** The variant with parenthesis support *)

(** checks whether op1 has lower precedence compared to op2 or is left
    associative *)
Definition has_lower_precedence (op1_str op2_str : string) : outcome bool :=
  if String.eqb op1_str "(" || String.eqb op2_str "("
     || String.eqb op1_str ")" || String.eqb op2_str ")"
  then Returns false
  else
    op1 <- map_at operator_properties op1_str ;;
    op2 <- map_at operator_properties op2_str ;;
    if priority op1 =? priority op2 then Returns (left_associative op1)
    else Returns (priority op1 <? priority op2).

(** [while (!Operators.empty() && Operators.top() != "(")
       { output.push(Operators.top()); Operators.pop(); }] *)
Fixpoint pop_until_paren (out ops : list string) : list string * list string :=
  match ops with
  | [] => (out, [])
  | top :: rest =>
      if String.eqb top "(" then (out, ops) else pop_until_paren (top :: out) rest
  end.

(** [while (!Operators.empty() && Operators.top() != "("
           && has_lower_precedence(op, Operators.top()))
       { output.push(Operators.top()); Operators.pop(); }] *)
Fixpoint pop_operators (op : string) (out ops : list string)
    : outcome (list string * list string) :=
  match ops with
  | [] => Returns (out, [])
  | top :: rest =>
      if String.eqb top "(" then Returns (out, ops)
      else
        lower <- has_lower_precedence op top ;;
        if lower then pop_operators op (top :: out) rest else Returns (out, ops)
  end.

(** The test [i - 1 < 0 || !isdigit(expression[i-1])] at index [i]: the
    subtraction is one of [std::size_t]. *)
Definition unary_test (expression : string) (i : Z) : outcome bool :=
  if size_t_wrap (i - 1) <? 0 then Returns true
  else
    match string_at expression (size_t_wrap (i - 1)) with
    | None => OutOfBounds (size_t_wrap (i - 1))
    | Some previous_char => Returns (negb (isdigit previous_char))
    end.

(** The body of the [for] loop of [infix_to_postfix] for the character
    [current_char]; [unary] is the unary test, which only the operator
    branch runs. *)
Definition scan_char (current_char : ascii) (unary : outcome bool)
    (st : scan_state) : outcome scan_state :=
  if isdigit current_char || Ascii.eqb current_char "."
     || Ascii.eqb current_char ","
  then (* parse number *)
    Returns {| output := output st;
               Operators := Operators st;
               current_num :=
                 push_back (current_num st)
                   (if Ascii.eqb current_char "," then "."%char
                    else current_char);
               previous_num := true |}
  else if Ascii.eqb current_char "(" then (* parenthesis support *)
    Returns {| output := output st;
               Operators := "(" :: Operators st;
               current_num := current_num st;
               previous_num := previous_num st |}
  else if Ascii.eqb current_char ")" then
    (* push last number in parentheses *)
    let flushed := negb (string_empty (current_num st)) in
    let out := if flushed then current_num st :: output st else output st in
    let num := if flushed then "" else current_num st in
    (* push operators to output until '(' is encountered *)
    let '(out', ops) := pop_until_paren out (Operators st) in
    match ops with
    | _ :: ops' => (* Remove '(' from the stack *)
        Returns {| output := out'; Operators := ops';
                   current_num := num; previous_num := previous_num st |}
    | [] => Throws MismatchedParentheses
    end
  else if negb (Ascii.eqb current_char " ") then
    (* character is an arithmetic or unary operator *)
    is_unary <- unary ;;
    if is_unary then (* unary operator *)
      Returns {| output := output st;
                 Operators := Operators st;
                 current_num := push_back (current_num st) current_char;
                 previous_num := previous_num st |}
    else
      (* push parsed number to output stack *)
      let out := if previous_num st then current_num st :: output st
                 else output st in
      let num := if previous_num st then "" else current_num st in
      (* handle operators *)
      let op := String current_char "" in
      '(out', ops) <- pop_operators op out (Operators st) ;;
      Returns {| output := out'; Operators := op :: ops;
                 current_num := num; previous_num := false |}
  else Returns st.

(** One iteration of the loop, at index [i]. *)
Definition scan_step (expression : string) (i : Z) (st : scan_state)
    : outcome scan_state :=
  match string_at expression i with
  | None => OutOfBounds i
  | Some current_char => scan_char current_char (unary_test expression i) st
  end.

(** The loop [for (std::size_t i = 0; i < expression.length(); ++i)], with
    [remaining] iterations to go from index [i]. *)
Fixpoint scan_loop (expression : string) (remaining : nat) (i : Z)
    (st : scan_state) : outcome scan_state :=
  match remaining with
  | O => Returns st
  | S remaining' =>
      st' <- scan_step expression i st ;;
      scan_loop expression remaining' (i + 1) st'
  end.

(** converts an expression from infix to postfix notation using shunting yard
    algorithm; the stack returned has the first token of the postfix form on
    top *)
Definition infix_to_postfix (expression : string) : outcome (list string) :=
  st <- scan_loop expression (String.length expression) 0 initial_state ;;
  (* push last parsed number to output if present *)
  let out := if negb (string_empty (current_num st))
             then current_num st :: output st else output st in
  (* push the rest of operators *)
  Returns (reverse_stack (push_rest out (Operators st))).

(** [result.size()] *)
Definition stack_size (result : list float) : Z := Z.of_nat (List.length result).

Section Evaluation.

(** [std::pow] of <cmath>. *)
Variable pow : float -> float -> float.

(** applies an Operator on the first two top operands from the result stack *)
Definition apply_operator (result : list float) (op : Operator)
    : outcome (list float) :=
  if stack_size result <? 2 then
    Throws (runtime_error "Not enough operands to perform operation")
  else
    match result with
    | num1 :: num2 :: result' =>
        match op with
        | Addition => Returns ((num2 + num1)%float :: result')
        | Subtraction => Returns ((num2 - num1)%float :: result')
        | Multiplication => Returns ((num2 * num1)%float :: result')
        | Division =>
            if (num1 =? 0)%float then Throws DivisionByZero
            else Returns ((num2 / num1)%float :: result')
        | Exponentiation => Returns (pow num2 num1 :: result')
        end
    | _ => Returns result (* not reached: the stack holds two values *)
    end.

(** The body of the [while] loop of [evaluate] for the token on top. *)
Definition evaluate_token (token : string) (result : list float)
    : outcome (list float) :=
  if is_number token then
    match stod token with
    | stod_value d => Returns (d :: result)
    | stod_invalid => Throws (InvalidNumber token)
    | stod_range => Throws (NumberOutOfRange token)
    end
  else if stack_size result <? 2 then Throws InsufficientOperands
  else
    op <- operator_to_enum token ;;
    apply_operator result op.

(** [while(!postfix_expr.empty()) { ...; postfix_expr.pop(); }] *)
Fixpoint evaluate_loop (postfix_expr : list string) (result : list float)
    : outcome (list float) :=
  match postfix_expr with
  | [] => Returns result
  | token :: rest =>
      result' <- evaluate_token token result ;;
      evaluate_loop rest result'
  end.

(** converts an expression to postfix notation and then evaluates it *)
Definition evaluate (expression : string) : outcome float :=
  if string_empty expression then Throws EmptyExpression
  else
    postfix_expr <- infix_to_postfix expression ;;
    result <- evaluate_loop postfix_expr [] ;;
    if negb (stack_size result =? 1) then Throws MalformedExpression
    else
      match result with
      | top :: _ => Returns top
      | [] => Throws MalformedExpression (* not reached: the size is 1 *)
      end.

End Evaluation.

(** ** The older variant ([expression_evaluator.cpp])

    No parentheses, no division guard, the emptiness test after the
    conversion, and the exceptions of [std::stod] left uncaught.
    [is_number] and [Operator_to_enum] are those of the other variant. *)
Module Legacy.

Definition has_lower_precedence (op1_str op2_str : string) : outcome bool :=
  op1 <- map_at operator_properties op1_str ;;
  op2 <- map_at operator_properties op2_str ;;
  if priority op1 =? priority op2 then Returns (left_associative op1)
  else Returns (priority op1 <? priority op2).

(** [while (!Operators.empty() && has_lower_precedence(op, Operators.top()))
       { output.push(Operators.top()); Operators.pop(); }] *)
Fixpoint pop_operators (op : string) (out ops : list string)
    : outcome (list string * list string) :=
  match ops with
  | [] => Returns (out, [])
  | top :: rest =>
      lower <- has_lower_precedence op top ;;
      if lower then pop_operators op (top :: out) rest else Returns (out, ops)
  end.

Definition scan_char (current_char : ascii) (unary : outcome bool)
    (st : scan_state) : outcome scan_state :=
  if isdigit current_char || Ascii.eqb current_char "."
     || Ascii.eqb current_char ","
  then (* parse number *)
    Returns {| output := output st;
               Operators := Operators st;
               current_num :=
                 push_back (current_num st)
                   (if Ascii.eqb current_char "," then "."%char
                    else current_char);
               previous_num := true |}
  else if negb (Ascii.eqb current_char " ") then
    (* character is arithmetic or unary operator *)
    is_unary <- unary ;;
    if is_unary then (* unary operator *)
      Returns {| output := output st;
                 Operators := Operators st;
                 current_num := push_back (current_num st) current_char;
                 previous_num := previous_num st |}
    else
      (* push parsed number to output stack *)
      let out := if previous_num st then current_num st :: output st
                 else output st in
      let num := if previous_num st then "" else current_num st in
      (* handle operators *)
      let op := String current_char "" in
      '(out', ops) <- pop_operators op out (Operators st) ;;
      Returns {| output := out'; Operators := op :: ops;
                 current_num := num; previous_num := false |}
  else Returns st.

Definition scan_step (expression : string) (i : Z) (st : scan_state)
    : outcome scan_state :=
  match string_at expression i with
  | None => OutOfBounds i
  | Some current_char => scan_char current_char (unary_test expression i) st
  end.

Fixpoint scan_loop (expression : string) (remaining : nat) (i : Z)
    (st : scan_state) : outcome scan_state :=
  match remaining with
  | O => Returns st
  | S remaining' =>
      st' <- scan_step expression i st ;;
      scan_loop expression remaining' (i + 1) st'
  end.

Definition infix_to_postfix (expression : string) : outcome (list string) :=
  st <- scan_loop expression (String.length expression) 0 initial_state ;;
  (* release last number if present *)
  let out := if negb (string_empty (current_num st))
             then current_num st :: output st else output st in
  (* push the rest of operators *)
  Returns (reverse_stack (push_rest out (Operators st))).

Definition Operator_to_enum := operator_to_enum.

Section Evaluation.

Variable pow : float -> float -> float.

Definition apply_Operator (result : list float) (op : Operator)
    : outcome (list float) :=
  if stack_size result <? 2 then
    Throws (runtime_error "Not enough operands to perform operation")
  else
    match result with
    | num1 :: num2 :: result' =>
        match op with
        | Addition => Returns ((num2 + num1)%float :: result')
        | Subtraction => Returns ((num2 - num1)%float :: result')
        | Multiplication => Returns ((num2 * num1)%float :: result')
        | Division => Returns ((num2 / num1)%float :: result')
        | Exponentiation => Returns (pow num2 num1 :: result')
        end
    | _ => Returns result (* not reached: the stack holds two values *)
    end.

Definition evaluate_token (token : string) (result : list float)
    : outcome (list float) :=
  if is_number token then
    match stod token with
    | stod_value d => Returns (d :: result)
    | stod_invalid => Throws stod_invalid_argument
    | stod_range => Throws stod_out_of_range
    end
  else if stack_size result <? 2 then Throws InsufficientOperands
  else
    op <- Operator_to_enum token ;;
    apply_Operator result op.

Fixpoint evaluate_loop (postfix_expr : list string) (result : list float)
    : outcome (list float) :=
  match postfix_expr with
  | [] => Returns result
  | token :: rest =>
      result' <- evaluate_token token result ;;
      evaluate_loop rest result'
  end.

Definition evaluate (expression : string) : outcome float :=
  postfix_expr <- infix_to_postfix expression ;;
  if match postfix_expr with [] => true | _ :: _ => false end
  then Throws EmptyExpression
  else
    result <- evaluate_loop postfix_expr [] ;;
    if negb (stack_size result =? 1) then Throws MalformedExpression
    else
      match result with
      | top :: _ => Returns top
      | [] => Throws MalformedExpression (* not reached: the size is 1 *)
      end.

End Evaluation.

End Legacy.

(** A [std::pow] for exponents that are small natural numbers, by repeated
    multiplication: exact whenever the power is a binary64 number. *)
Fixpoint power_by_multiplication (x : float) (n : nat) : float :=
  match n with
  | O => 1%float
  | S n' => (x * power_by_multiplication x n')%float
  end.

(** [y] as a natural number below 64, when it is one. *)
Definition small_natural (y : float) : option nat :=
  match Prim2SF y with
  | S754_zero _ => Some O
  | S754_finite false m e =>
      let n := if 0 <=? e then Z.pos m * 2 ^ e else Z.pos m / 2 ^ (- e) in
      let whole := if 0 <=? e then true else Z.pos m mod 2 ^ (- e) =? 0 in
      if whole && (n <? 64) then Some (Z.to_nat n) else None
  | _ => None
  end.

Definition integral_pow (x y : float) : float :=
  match small_natural y with
  | Some n => power_by_multiplication x n
  | None => nan
  end.

(** The characters the scan sends to its last branch, the operator one. *)
Definition operator_char (c : ascii) : bool :=
  negb (isdigit c || Ascii.eqb c "." || Ascii.eqb c ",")
  && negb (Ascii.eqb c "(") && negb (Ascii.eqb c ")") && negb (Ascii.eqb c " ").

(** In the older variant the parentheses go to the operator branch too. *)
Definition legacy_operator_char (c : ascii) : bool :=
  negb (isdigit c || Ascii.eqb c "." || Ascii.eqb c ",")
  && negb (Ascii.eqb c " ").

(** A call that does not read the expression outside its bounds. *)
Definition in_bounds {A : Type} (m : outcome A) : Prop :=
  match m with
  | OutOfBounds _ => False
  | _ => True
  end.

(** A string of [n] space characters. *)
Fixpoint spaces (n : nat) : string :=
  match n with
  | O => ""
  | S n' => String " " (spaces n')
  end.

(** ** Auxiliary definitions for the general properties *)

(** The scan from the second character on, as a function of the characters
    alone: each one is handled knowing the character before it. *)
Fixpoint scan_chars (previous_char : ascii) (rest : string) (st : scan_state)
    : outcome scan_state :=
  match rest with
  | EmptyString => Returns st
  | String c rest' =>
      st' <- scan_char c (Returns (negb (isdigit previous_char))) st ;;
      scan_chars c rest' st'
  end.

(** What [infix_to_postfix] returns once the loop has ended in state [st]:
    the pending literal and the remaining operators are pushed, and the
    stack is reversed. *)
Definition finish_scan (st : scan_state) : list string :=
  reverse_stack
    (push_rest
       (if negb (string_empty (current_num st))
        then current_num st :: output st else output st)
       (Operators st)).

(** The characters of the number branch of the scan. *)
Definition number_char (c : ascii) : bool :=
  isdigit c || Ascii.eqb c "." || Ascii.eqb c ",".

Fixpoint all_number_chars (s : string) : bool :=
  match s with
  | EmptyString => true
  | String c s' => number_char c && all_number_chars s'
  end.

(** The last character of [String c s]. *)
Fixpoint last_char (c : ascii) (s : string) : ascii :=
  match s with
  | EmptyString => c
  | String c' s' => last_char c' s'
  end.

(** A number as it is written in an expression: digits, points and commas,
    the last character a digit. *)
Definition number (s : string) : Prop :=
  all_number_chars s = true /\ isdigit (last_char " " s) = true.

(** The literal the scan collects for a number: commas become points. *)
Fixpoint dots (s : string) : string :=
  match s with
  | EmptyString => EmptyString
  | String c s' => String (if Ascii.eqb c "," then "."%char else c) (dots s')
  end.

(** The state of the scan after the characters [s] of a number. *)
Definition after_number (st : scan_state) (s : string) : scan_state :=
  {| output := output st;
     Operators := Operators st;
     current_num := current_num st ++ dots s;
     previous_num := previous_num st || negb (string_empty s) |}.

(** The value [apply_operator] pushes for the operands [left] and [right]. *)
Definition binary (pow : float -> float -> float) (op : Operator)
    (left right : float) : outcome float :=
  match op with
  | Addition => Returns (left + right)%float
  | Subtraction => Returns (left - right)%float
  | Multiplication => Returns (left * right)%float
  | Division =>
      if (right =? 0)%float then Throws DivisionByZero
      else Returns (left / right)%float
  | Exponentiation => Returns (pow left right)
  end.

(** Whether the expression starts with an operator character. *)
Definition starts_with_operator (s : string) : bool :=
  match s with
  | EmptyString => false
  | String c _ => operator_char c
  end.

(** A character, a string, a stack of strings without parentheses. *)
Definition no_paren_char (c : ascii) : bool :=
  negb (Ascii.eqb c "(") && negb (Ascii.eqb c ")").

Fixpoint paren_free (s : string) : bool :=
  match s with
  | EmptyString => true
  | String c s' => no_paren_char c && paren_free s'
  end.

Definition no_paren (s : string) : bool :=
  negb (String.eqb s "(") && negb (String.eqb s ")").

(** The numbers and the operators of a postfix form, as [evaluate] tells
    them apart. *)
Definition count_numbers (postfix_expr : list string) : Z :=
  Z.of_nat (List.length (filter is_number postfix_expr)).

Definition count_operators (postfix_expr : list string) : Z :=
  Z.of_nat (List.length (filter (fun token => negb (is_number token))
                           postfix_expr)).

(** The exceptions that [evaluate] can throw. *)
Inductive evaluate_exception : exception -> Prop :=
| throws_empty : evaluate_exception EmptyExpression
| throws_parentheses : evaluate_exception MismatchedParentheses
| throws_missing_key key : evaluate_exception (map_out_of_range key)
| throws_invalid_number token : evaluate_exception (InvalidNumber token)
| throws_number_range token : evaluate_exception (NumberOutOfRange token)
| throws_operands : evaluate_exception InsufficientOperands
| throws_operator op : evaluate_exception (InvalidOperator op)
| throws_division : evaluate_exception DivisionByZero
| throws_malformed : evaluate_exception MalformedExpression.

(** A call that throws nothing but such exceptions. *)
Definition throws_own {A : Type} (m : outcome A) : Prop :=
  match m with
  | Throws e => evaluate_exception e
  | _ => True
  end.

(** The scan of the older variant from the second character on. *)
Fixpoint legacy_scan_chars (previous_char : ascii) (rest : string)
    (st : scan_state) : outcome scan_state :=
  match rest with
  | EmptyString => Returns st
  | String c rest' =>
      st' <- Legacy.scan_char c (Returns (negb (isdigit previous_char))) st ;;
      legacy_scan_chars c rest' st'
  end.

(** * Properties *)

(** ** Strings and indices *)

Lemma string_length_cons (c : ascii) (s : string) :
  string_length (String c s) = 1 + string_length s.
Proof.
  unfold string_length. cbn [String.length]. lia.
Qed.

Lemma string_length_nonneg (s : string) : 0 <= string_length s.
Proof.
  unfold string_length. lia.
Qed.

(** Within the bounds of the string, [s[index]] is one of its characters. *)
Lemma string_at_in_bounds (s : string) :
  forall index, 0 <= index < string_length s ->
  exists c, string_at s index = Some c.
Proof.
  induction s as [| c s IH]; intros index Hindex.
  - unfold string_length in Hindex. simpl in Hindex. lia.
  - rewrite string_length_cons in Hindex. cbn [string_at].
    destruct (index =? 0) eqn:Hzero.
    + now exists c.
    + apply Z.eqb_neq in Hzero. apply IH. lia.
Qed.

(** Outside them, no character is stored. *)
Lemma string_at_out_of_bounds (s : string) :
  forall index, index < 0 \/ string_length s <= index ->
  string_at s index = None.
Proof.
  induction s as [| c s IH]; intros index Hindex.
  - reflexivity.
  - rewrite string_length_cons in Hindex. cbn [string_at].
    pose proof (string_length_nonneg s).
    destruct (index =? 0) eqn:Hzero.
    + apply Z.eqb_eq in Hzero. lia.
    + apply IH. lia.
Qed.

(** At [i = 0] the unsigned [i - 1] is the largest [std::size_t]; from 1 on
    it is the index before [i]. *)
Lemma size_t_wrap_before_zero : size_t_wrap (0 - 1) = size_t_modulus - 1.
Proof.
  reflexivity.
Qed.

Lemma size_t_wrap_before (i : Z) :
  1 <= i <= size_t_modulus -> size_t_wrap (i - 1) = i - 1.
Proof.
  intros Hi. unfold size_t_wrap. apply Z.mod_small. lia.
Qed.

(** The test [i - 1 < 0] of the scan never holds. *)
Lemma size_t_wrap_never_negative (z : Z) : (size_t_wrap z <? 0) = false.
Proof.
  apply Z.ltb_ge. unfold size_t_wrap.
  apply Z.mod_pos_bound. reflexivity.
Qed.

(** ** The operand stack *)

Lemma stack_size_two (num1 num2 : float) (rest : list float) :
  (stack_size (num1 :: num2 :: rest) <? 2) = false.
Proof.
  apply Z.ltb_ge. unfold stack_size. cbn [List.length]. lia.
Qed.

Section EvaluationFacts.

Variable pow : float -> float -> float.

(** Operand order: the value on top is the right operand, the one below it
    the left operand. *)
Lemma apply_operator_two (num1 num2 : float) (rest : list float)
    (op : Operator) :
  apply_operator pow (num1 :: num2 :: rest) op =
  match op with
  | Addition => Returns ((num2 + num1)%float :: rest)
  | Subtraction => Returns ((num2 - num1)%float :: rest)
  | Multiplication => Returns ((num2 * num1)%float :: rest)
  | Division =>
      if (num1 =? 0)%float then Throws DivisionByZero
      else Returns ((num2 / num1)%float :: rest)
  | Exponentiation => Returns (pow num2 num1 :: rest)
  end.
Proof.
  unfold apply_operator. rewrite stack_size_two. reflexivity.
Qed.

Lemma legacy_apply_Operator_two (num1 num2 : float) (rest : list float)
    (op : Operator) :
  Legacy.apply_Operator pow (num1 :: num2 :: rest) op =
  match op with
  | Addition => Returns ((num2 + num1)%float :: rest)
  | Subtraction => Returns ((num2 - num1)%float :: rest)
  | Multiplication => Returns ((num2 * num1)%float :: rest)
  | Division => Returns ((num2 / num1)%float :: rest)
  | Exponentiation => Returns (pow num2 num1 :: rest)
  end.
Proof.
  unfold Legacy.apply_Operator. rewrite stack_size_two. reflexivity.
Qed.

(** The evaluation loop runs through a sequence of tokens part by part. *)
Lemma evaluate_loop_app (before after : list string) :
  forall result,
  evaluate_loop pow (before ++ after) result =
  bind (evaluate_loop pow before result) (evaluate_loop pow after).
Proof.
  induction before as [| token before IH]; intros result.
  - reflexivity.
  - cbn [app evaluate_loop].
    destruct (evaluate_token pow token result) as [result' | e | index];
      cbn [bind]; [apply IH | reflexivity | reflexivity].
Qed.

(** A division token met with a zero on top of two operands stops the
    loop with the division error, whatever follows. *)
Lemma evaluate_loop_division_by_zero (num1 num2 : float)
    (rest : list float) (after : list string) :
  (num1 =? 0)%float = true ->
  evaluate_loop pow ("/" :: after) (num1 :: num2 :: rest) =
  Throws DivisionByZero.
Proof.
  intros Hzero. cbn [evaluate_loop]. unfold evaluate_token.
  replace (is_number "/") with false by reflexivity.
  rewrite stack_size_two.
  replace (operator_to_enum "/") with (Returns Division) by reflexivity.
  cbn [bind]. rewrite apply_operator_two, Hzero. reflexivity.
Qed.

(** X15. Whenever the evaluation of an expression reaches a division with a
    right operand equal to 0.0, [evaluate] fails with the division error. *)
Lemma evaluate_division_by_zero (expression : string)
    (before after : list string) (num1 num2 : float) (rest : list float) :
  string_empty expression = false ->
  infix_to_postfix expression = Returns (before ++ "/" :: after)%list ->
  evaluate_loop pow before [] = Returns (num1 :: num2 :: rest) ->
  (num1 =? 0)%float = true ->
  evaluate pow expression = Throws DivisionByZero.
Proof.
  intros Hnonempty Hpostfix Hbefore Hzero. unfold evaluate.
  rewrite Hnonempty, Hpostfix. cbn [bind].
  rewrite evaluate_loop_app, Hbefore. cbn [bind].
  rewrite evaluate_loop_division_by_zero by exact Hzero. reflexivity.
Qed.

End EvaluationFacts.

(** ** Which reads of the expression stay within its bounds *)

Lemma in_bounds_bind {A B : Type} (m : outcome A) (k : A -> outcome B) :
  in_bounds m -> (forall a, in_bounds (k a)) -> in_bounds (bind m k).
Proof.
  intros Hm Hk. destruct m as [a | e | index]; cbn [bind]; auto.
Qed.

Lemma map_at_in_bounds (table : list (string * OperatorProperty))
    (key : string) : in_bounds (map_at table key).
Proof.
  induction table as [| [k v] table IH]; cbn [map_at].
  - exact I.
  - destruct (String.eqb k key); [exact I | exact IH].
Qed.

Lemma has_lower_precedence_in_bounds (op1_str op2_str : string) :
  in_bounds (has_lower_precedence op1_str op2_str).
Proof.
  unfold has_lower_precedence.
  destruct (_ || _); [exact I |].
  apply in_bounds_bind; [apply map_at_in_bounds | intros op1].
  apply in_bounds_bind; [apply map_at_in_bounds | intros op2].
  destruct (priority op1 =? priority op2); exact I.
Qed.

Lemma pop_operators_in_bounds (op : string) (ops : list string) :
  forall out, in_bounds (pop_operators op out ops).
Proof.
  induction ops as [| top rest IH]; intros out; cbn [pop_operators].
  - exact I.
  - destruct (String.eqb top "("); [exact I |].
    apply in_bounds_bind; [apply has_lower_precedence_in_bounds |].
    intros [|]; [apply IH | exact I].
Qed.

Lemma legacy_has_lower_precedence_in_bounds (op1_str op2_str : string) :
  in_bounds (Legacy.has_lower_precedence op1_str op2_str).
Proof.
  unfold Legacy.has_lower_precedence.
  apply in_bounds_bind; [apply map_at_in_bounds | intros op1].
  apply in_bounds_bind; [apply map_at_in_bounds | intros op2].
  destruct (priority op1 =? priority op2); exact I.
Qed.

Lemma legacy_pop_operators_in_bounds (op : string) (ops : list string) :
  forall out, in_bounds (Legacy.pop_operators op out ops).
Proof.
  induction ops as [| top rest IH]; intros out; cbn [Legacy.pop_operators].
  - exact I.
  - apply in_bounds_bind; [apply legacy_has_lower_precedence_in_bounds |].
    intros [|]; [apply IH | exact I].
Qed.

(** When the character before position [i] is known, the step at [i] reads
    nothing else. *)
Lemma scan_step_with_previous (expression : string) (i : Z) (st : scan_state)
    (current_char previous_char : ascii) :
  string_at expression i = Some current_char ->
  string_at expression (size_t_wrap (i - 1)) = Some previous_char ->
  in_bounds (scan_step expression i st).
Proof.
  intros Hcurrent Hprevious. unfold scan_step, scan_char, unary_test.
  rewrite Hcurrent, Hprevious, size_t_wrap_never_negative.
  destruct (_ || _); [exact I |].
  destruct (Ascii.eqb current_char "("); [exact I |].
  destruct (Ascii.eqb current_char ")").
  - destruct (pop_until_paren _ _) as [out' [| top ops]]; exact I.
  - destruct (negb (Ascii.eqb current_char " ")); [| exact I].
    cbn [bind]. destruct (negb (isdigit previous_char)); [exact I |].
    apply in_bounds_bind; [apply pop_operators_in_bounds |].
    intros [out' ops]. exact I.
Qed.

Lemma legacy_scan_step_with_previous (expression : string) (i : Z)
    (st : scan_state) (current_char previous_char : ascii) :
  string_at expression i = Some current_char ->
  string_at expression (size_t_wrap (i - 1)) = Some previous_char ->
  in_bounds (Legacy.scan_step expression i st).
Proof.
  intros Hcurrent Hprevious. unfold Legacy.scan_step, Legacy.scan_char, unary_test.
  rewrite Hcurrent, Hprevious, size_t_wrap_never_negative.
  destruct (_ || _); [exact I |].
  destruct (negb (Ascii.eqb current_char " ")); [| exact I].
  cbn [bind]. destruct (negb (isdigit previous_char)); [exact I |].
  apply in_bounds_bind; [apply legacy_pop_operators_in_bounds |].
  intros [out' ops]. exact I.
Qed.

Section Bounds.

Variable expression : string.
Hypothesis length_fits : string_length expression < size_t_modulus.

(** From the second character on, the look-back [expression[i-1]] is a
    read inside the string. *)
Lemma lookback_in_bounds (i : Z) :
  1 <= i < string_length expression ->
  exists previous_char,
    string_at expression (size_t_wrap (i - 1)) = Some previous_char.
Proof.
  intros Hi. rewrite size_t_wrap_before by lia.
  apply string_at_in_bounds. lia.
Qed.

Lemma scan_loop_in_bounds (remaining : nat) :
  forall i st,
  1 <= i -> i + Z.of_nat remaining <= string_length expression ->
  in_bounds (scan_loop expression remaining i st).
Proof.
  induction remaining as [| remaining IH]; intros i st Hlow Hhigh.
  - exact I.
  - cbn [scan_loop]. apply in_bounds_bind.
    + destruct (string_at_in_bounds expression i) as [c Hc]; [lia |].
      destruct (lookback_in_bounds i) as [p Hp]; [lia |].
      exact (scan_step_with_previous expression i st c p Hc Hp).
    + intros st'. apply IH; lia.
Qed.

Lemma legacy_scan_loop_in_bounds (remaining : nat) :
  forall i st,
  1 <= i -> i + Z.of_nat remaining <= string_length expression ->
  in_bounds (Legacy.scan_loop expression remaining i st).
Proof.
  induction remaining as [| remaining IH]; intros i st Hlow Hhigh.
  - exact I.
  - cbn [Legacy.scan_loop]. apply in_bounds_bind.
    + destruct (string_at_in_bounds expression i) as [c Hc]; [lia |].
      destruct (lookback_in_bounds i) as [p Hp]; [lia |].
      exact (legacy_scan_step_with_previous expression i st c p Hc Hp).
    + intros st'. apply IH; lia.
Qed.

(** At the first character the look-back reads [expression[2^64 - 1]],
    which no string holds. *)
Lemma lookback_at_zero_out_of_bounds :
  string_at expression (size_t_wrap (0 - 1)) = None.
Proof.
  rewrite size_t_wrap_before_zero.
  apply string_at_out_of_bounds. lia.
Qed.

End Bounds.

(** The first character decides: an operator character there sends the scan
    to [expression[2^64 - 1]]; any other first character keeps every read
    inside the string. *)
Lemma scan_step_first_operator (c : ascii) (rest : string) (st : scan_state) :
  string_length (String c rest) < size_t_modulus ->
  operator_char c = true ->
  scan_step (String c rest) 0 st = OutOfBounds (size_t_modulus - 1).
Proof.
  intros Hfits Hop. unfold scan_step, scan_char, unary_test.
  rewrite (lookback_at_zero_out_of_bounds _ Hfits).
  rewrite size_t_wrap_never_negative, size_t_wrap_before_zero.
  cbn [string_at]. rewrite Z.eqb_refl.
  unfold operator_char in Hop.
  destruct (isdigit c || Ascii.eqb c "." || Ascii.eqb c ","); [discriminate |].
  destruct (Ascii.eqb c "("); [discriminate |].
  destruct (Ascii.eqb c ")"); [discriminate |].
  destruct (Ascii.eqb c " "); [discriminate |].
  reflexivity.
Qed.

Lemma scan_step_first_other (c : ascii) (rest : string) (st : scan_state) :
  operator_char c = false ->
  in_bounds (scan_step (String c rest) 0 st).
Proof.
  intros Hop. unfold scan_step, scan_char, unary_test.
  cbn [string_at]. rewrite Z.eqb_refl.
  unfold operator_char in Hop.
  destruct (isdigit c || Ascii.eqb c "." || Ascii.eqb c ","); [exact I |].
  destruct (Ascii.eqb c "("); [exact I |].
  destruct (Ascii.eqb c ")").
  - destruct (pop_until_paren _ _) as [out' [| top ops]]; exact I.
  - destruct (Ascii.eqb c " "); [exact I | discriminate].
Qed.

Lemma infix_to_postfix_first_operator (c : ascii) (rest : string) :
  string_length (String c rest) < size_t_modulus ->
  operator_char c = true ->
  infix_to_postfix (String c rest) = OutOfBounds (size_t_modulus - 1).
Proof.
  intros Hfits Hop. unfold infix_to_postfix.
  cbn [String.length scan_loop].
  rewrite scan_step_first_operator by assumption. reflexivity.
Qed.

Lemma infix_to_postfix_first_other (c : ascii) (rest : string) :
  string_length (String c rest) < size_t_modulus ->
  operator_char c = false ->
  in_bounds (infix_to_postfix (String c rest)).
Proof.
  intros Hfits Hop. unfold infix_to_postfix.
  apply in_bounds_bind; [| intros st; exact I].
  cbn [String.length scan_loop].
  apply in_bounds_bind; [apply scan_step_first_other; exact Hop |].
  intros st. apply scan_loop_in_bounds; [exact Hfits | lia |].
  rewrite string_length_cons. unfold string_length. lia.
Qed.

(** X1. The conversion reads outside the expression exactly when the expression
    starts with an operator character, and then at index [2^64 - 1]. *)
Lemma infix_to_postfix_out_of_bounds_iff (expression : string) (index : Z) :
  string_length expression < size_t_modulus ->
  infix_to_postfix expression = OutOfBounds index <->
  index = size_t_modulus - 1 /\
  exists c rest, expression = String c rest /\ operator_char c = true.
Proof.
  intros Hfits. split.
  - intros Hout. destruct expression as [| c rest]; [discriminate |].
    destruct (operator_char c) eqn:Hop.
    + rewrite infix_to_postfix_first_operator in Hout by assumption.
      injection Hout as <-. split; [reflexivity |].
      exists c, rest. now split.
    + pose proof (infix_to_postfix_first_other c rest Hfits Hop) as Hin.
      rewrite Hout in Hin. destruct Hin.
  - intros [-> (c & rest & -> & Hop)].
    now apply infix_to_postfix_first_operator.
Qed.

(** The same holds of the older variant, whose operator branch also takes
    the parentheses. *)
Lemma legacy_infix_to_postfix_first_operator (c : ascii) (rest : string) :
  string_length (String c rest) < size_t_modulus ->
  legacy_operator_char c = true ->
  Legacy.infix_to_postfix (String c rest) = OutOfBounds (size_t_modulus - 1).
Proof.
  intros Hfits Hop. unfold Legacy.infix_to_postfix.
  cbn [String.length Legacy.scan_loop]. unfold Legacy.scan_step, Legacy.scan_char, unary_test.
  rewrite (lookback_at_zero_out_of_bounds _ Hfits).
  rewrite size_t_wrap_never_negative, size_t_wrap_before_zero.
  cbn [string_at]. rewrite Z.eqb_refl.
  unfold legacy_operator_char in Hop.
  destruct (isdigit c || Ascii.eqb c "." || Ascii.eqb c ","); [discriminate |].
  destruct (Ascii.eqb c " "); [discriminate |].
  reflexivity.
Qed.

Lemma legacy_infix_to_postfix_first_other (c : ascii) (rest : string) :
  string_length (String c rest) < size_t_modulus ->
  legacy_operator_char c = false ->
  in_bounds (Legacy.infix_to_postfix (String c rest)).
Proof.
  intros Hfits Hop. unfold Legacy.infix_to_postfix.
  apply in_bounds_bind; [| intros st; exact I].
  cbn [String.length Legacy.scan_loop].
  apply in_bounds_bind.
  - unfold Legacy.scan_step, Legacy.scan_char, unary_test. cbn [string_at]. rewrite Z.eqb_refl.
    unfold legacy_operator_char in Hop.
    destruct (isdigit c || Ascii.eqb c "." || Ascii.eqb c ","); [exact I |].
    destruct (Ascii.eqb c " "); [exact I | discriminate].
  - intros st. apply legacy_scan_loop_in_bounds; [exact Hfits | lia |].
    rewrite string_length_cons. unfold string_length. lia.
Qed.

(** ** Expressions made of spaces only *)

Lemma spaces_length (n : nat) : String.length (spaces n) = n.
Proof.
  induction n as [| n IH]; cbn [spaces String.length]; congruence.
Qed.

Lemma string_at_spaces (n : nat) :
  forall i, 0 <= i < Z.of_nat n -> string_at (spaces n) i = Some " "%char.
Proof.
  induction n as [| n IH]; intros i Hi.
  - simpl in Hi. lia.
  - cbn [spaces string_at]. destruct (i =? 0) eqn:Hzero; [reflexivity |].
    apply Z.eqb_neq in Hzero. apply IH. lia.
Qed.

(** A space changes nothing in the state of the scan. *)
Lemma scan_step_space (expression : string) (i : Z) (st : scan_state) :
  string_at expression i = Some " "%char ->
  scan_step expression i st = Returns st.
Proof.
  intros Hspace. unfold scan_step, scan_char, unary_test. rewrite Hspace. reflexivity.
Qed.

Lemma legacy_scan_step_space (expression : string) (i : Z) (st : scan_state) :
  string_at expression i = Some " "%char ->
  Legacy.scan_step expression i st = Returns st.
Proof.
  intros Hspace. unfold Legacy.scan_step, Legacy.scan_char, unary_test. rewrite Hspace. reflexivity.
Qed.

Lemma scan_loop_spaces (n remaining : nat) :
  forall i st,
  0 <= i -> i + Z.of_nat remaining <= Z.of_nat n ->
  scan_loop (spaces n) remaining i st = Returns st.
Proof.
  induction remaining as [| remaining IH]; intros i st Hlow Hhigh.
  - reflexivity.
  - cbn [scan_loop].
    rewrite scan_step_space by (apply string_at_spaces; lia).
    cbn [bind]. apply IH; lia.
Qed.

Lemma legacy_scan_loop_spaces (n remaining : nat) :
  forall i st,
  0 <= i -> i + Z.of_nat remaining <= Z.of_nat n ->
  Legacy.scan_loop (spaces n) remaining i st = Returns st.
Proof.
  induction remaining as [| remaining IH]; intros i st Hlow Hhigh.
  - reflexivity.
  - cbn [Legacy.scan_loop].
    rewrite legacy_scan_step_space by (apply string_at_spaces; lia).
    cbn [bind]. apply IH; lia.
Qed.

(** Spaces yield no token, in both variants. *)
Lemma infix_to_postfix_spaces (n : nat) :
  infix_to_postfix (spaces n) = Returns [].
Proof.
  unfold infix_to_postfix. rewrite spaces_length.
  rewrite scan_loop_spaces by lia. reflexivity.
Qed.

Lemma legacy_infix_to_postfix_spaces (n : nat) :
  Legacy.infix_to_postfix (spaces n) = Returns [].
Proof.
  unfold Legacy.infix_to_postfix. rewrite spaces_length.
  rewrite legacy_scan_loop_spaces by lia. reflexivity.
Qed.

Section NoTokens.

Variable pow : float -> float -> float.

(** The variant with parentheses reports a non-empty expression without
    tokens as one with too many operands. *)
Lemma evaluate_no_tokens (expression : string) :
  string_empty expression = false ->
  infix_to_postfix expression = Returns [] ->
  evaluate pow expression = Throws MalformedExpression.
Proof.
  intros Hnonempty Hpostfix. unfold evaluate.
  rewrite Hnonempty, Hpostfix. reflexivity.
Qed.

Lemma evaluate_empty_string : evaluate pow "" = Throws EmptyExpression.
Proof.
  reflexivity.
Qed.

(** The older variant reports every expression without tokens as empty. *)
Lemma legacy_evaluate_no_tokens (expression : string) :
  Legacy.infix_to_postfix expression = Returns [] ->
  Legacy.evaluate pow expression = Throws EmptyExpression.
Proof.
  intros Hpostfix. unfold Legacy.evaluate.
  rewrite Hpostfix. reflexivity.
Qed.

(** X21. The older variant reports every string of spaces, the empty string
    included, as an empty expression. *)
Lemma legacy_evaluate_spaces (n : nat) :
  Legacy.evaluate pow (spaces n) = Throws EmptyExpression.
Proof.
  apply legacy_evaluate_no_tokens, legacy_infix_to_postfix_spaces.
Qed.

End NoTokens.

(** ** The unary rule *)

(** Past the first character, an operator character that does not follow a
    digit is appended to the pending literal; both stacks stay as they are. *)
Lemma scan_step_unary (expression : string) (i : Z) (st : scan_state)
    (current_char previous_char : ascii) :
  string_at expression i = Some current_char ->
  string_at expression (size_t_wrap (i - 1)) = Some previous_char ->
  operator_char current_char = true ->
  isdigit previous_char = false ->
  scan_step expression i st =
  Returns {| output := output st;
             Operators := Operators st;
             current_num := push_back (current_num st) current_char;
             previous_num := previous_num st |}.
Proof.
  intros Hcurrent Hprevious Hop Hdigit. unfold scan_step, scan_char, unary_test.
  rewrite Hcurrent, Hprevious, size_t_wrap_never_negative, Hdigit.
  unfold operator_char in Hop.
  destruct (isdigit current_char || Ascii.eqb current_char "."
            || Ascii.eqb current_char ","); [discriminate |].
  destruct (Ascii.eqb current_char "("); [discriminate |].
  destruct (Ascii.eqb current_char ")"); [discriminate |].
  destruct (Ascii.eqb current_char " "); [discriminate |].
  reflexivity.
Qed.

(** ** The tie-break rule *)

(** For two operators of the table, [has_lower_precedence a b] holds iff the
    priority of [a] is below that of [b], or they are equal and [a] is left
    associative. *)
Lemma has_lower_precedence_rule (a b : string) (pa pb : OperatorProperty) :
  map_at operator_properties a = Returns pa ->
  map_at operator_properties b = Returns pb ->
  has_lower_precedence a b =
  Returns ((priority pa <? priority pb)
           || ((priority pa =? priority pb) && left_associative pa)).
Proof.
  intros Ha Hb. unfold has_lower_precedence.
  assert (Hparen : forall s p, map_at operator_properties s = Returns p ->
            String.eqb s "(" = false /\ String.eqb s ")" = false).
  { intros s p Hs. split.
    - destruct (String.eqb s "(") eqn:E; [| reflexivity].
      apply String.eqb_eq in E. subst s. discriminate.
    - destruct (String.eqb s ")") eqn:E; [| reflexivity].
      apply String.eqb_eq in E. subst s. discriminate. }
  destruct (Hparen a pa Ha) as [Ha1 Ha2].
  destruct (Hparen b pb Hb) as [Hb1 Hb2].
  rewrite Ha1, Ha2, Hb1, Hb2, Ha, Hb. cbn [orb bind].
  destruct (priority pa =? priority pb) eqn:Heq.
  - apply Z.eqb_eq in Heq. rewrite Heq, Z.ltb_irrefl. reflexivity.
  - rewrite andb_false_l, orb_false_r. reflexivity.
Qed.

(** The operators of the table, by name. *)
Lemma map_at_operator_properties (key : string) (p : OperatorProperty) :
  map_at operator_properties key = Returns p ->
  (key = "+" /\ p = {| priority := 1; left_associative := true |}) \/
  (key = "-" /\ p = {| priority := 1; left_associative := true |}) \/
  (key = "*" /\ p = {| priority := 2; left_associative := true |}) \/
  (key = "/" /\ p = {| priority := 2; left_associative := true |}) \/
  (key = "^" /\ p = {| priority := 3; left_associative := false |}).
Proof.
  unfold operator_properties. cbn [map_at]. intros Hat.
  repeat match type of Hat with
  | (if String.eqb ?k key then _ else _) = _ =>
      let E := fresh "E" in
      destruct (String.eqb k key) eqn:E;
      [apply String.eqb_eq in E; injection Hat as <-; subst key; tauto |]
  end.
  discriminate.
Qed.

(** X13. Operators of equal priority have the same associativity, so on a tie the
    operator on the stack is popped exactly when it is left associative. *)
Lemma tie_pops_left_associative (a b : string) (pa pb : OperatorProperty) :
  map_at operator_properties a = Returns pa ->
  map_at operator_properties b = Returns pb ->
  priority pa = priority pb ->
  left_associative pa = left_associative pb /\
  has_lower_precedence a b = Returns (left_associative pb).
Proof.
  intros Ha Hb Hpriority.
  assert (Hsame : left_associative pa = left_associative pb).
  { destruct (map_at_operator_properties a pa Ha)
      as [[_ ->] | [[_ ->] | [[_ ->] | [[_ ->] | [_ ->]]]]];
    destruct (map_at_operator_properties b pb Hb)
      as [[_ ->] | [[_ ->] | [[_ ->] | [[_ ->] | [_ ->]]]]];
    cbn in Hpriority |- *; (reflexivity || discriminate). }
  split; [exact Hsame |].
  rewrite (has_lower_precedence_rule a b pa pb Ha Hb).
  rewrite Hpriority, Z.ltb_irrefl, Z.eqb_refl, Hsame. reflexivity.
Qed.

(** * The claims of the specification *)

(** Closed goals about concrete expressions are settled by running the
    embedded code. *)
Ltac by_evaluation := repeat split; vm_compute; reflexivity.

(** C1. [evaluate("2+3*4")] returns 14.0: the table gives the multiplication
    priority 2 and the addition priority 1, the postfix form applies the
    multiplication first, and the value is 2 + 12. *)
Theorem evaluate_precedence :
  forall pow : float -> float -> float,
  map_at operator_properties "*" =
    Returns {| priority := 2; left_associative := true |} /\
  map_at operator_properties "+" =
    Returns {| priority := 1; left_associative := true |} /\
  has_lower_precedence "*" "+" = Returns false /\
  infix_to_postfix "2+3*4" = Returns ["2"; "3"; "4"; "*"; "+"] /\
  evaluate pow "2+3*4" = Returns 14%float /\
  Legacy.evaluate pow "2+3*4" = Returns 14%float.
Proof.
  intros pow. by_evaluation.
Qed.

(** C2. Subtraction and division group from left to right and keep the
    operand order: the operand popped first is the right one, the operand
    popped second the left one; [evaluate("10-3-2")] returns 5.0 and
    [evaluate("8/4/2")] returns 1.0. *)
Theorem evaluate_left_associative :
  forall pow : float -> float -> float,
  (forall num1 num2 rest,
     apply_operator pow (num1 :: num2 :: rest) Subtraction =
     Returns ((num2 - num1)%float :: rest)) /\
  (forall num1 num2 rest,
     apply_operator pow (num1 :: num2 :: rest) Division =
     if (num1 =? 0)%float then Throws DivisionByZero
     else Returns ((num2 / num1)%float :: rest)) /\
  infix_to_postfix "10-3-2" = Returns ["10"; "3"; "-"; "2"; "-"] /\
  evaluate pow "10-3-2" = Returns 5%float /\
  infix_to_postfix "8/4/2" = Returns ["8"; "4"; "/"; "2"; "/"] /\
  evaluate pow "8/4/2" = Returns 1%float /\
  Legacy.evaluate pow "10-3-2" = Returns 5%float /\
  Legacy.evaluate pow "8/4/2" = Returns 1%float.
Proof.
  intros pow. split; [| split].
  - intros num1 num2 rest.
    apply (apply_operator_two pow num1 num2 rest Subtraction).
  - intros num1 num2 rest.
    apply (apply_operator_two pow num1 num2 rest Division).
  - by_evaluation.
Qed.

(** C3. Exponentiation groups from right to left: on the tie of two [^] the
    operator on the stack is not popped, the postfix form of ["2^3^2"] is
    [2 3 2 ^ ^], and [evaluate] returns [pow(2, pow(3, 2))], which is 512.0
    for a [std::pow] that is exact on these two powers. *)
Theorem evaluate_right_associative :
  forall pow : float -> float -> float,
  pow 3%float 2%float = 9%float ->
  pow 2%float 9%float = 512%float ->
  has_lower_precedence "^" "^" = Returns false /\
  infix_to_postfix "2^3^2" = Returns ["2"; "3"; "2"; "^"; "^"] /\
  evaluate pow "2^3^2" = Returns (pow 2%float (pow 3%float 2%float)) /\
  evaluate pow "2^3^2" = Returns 512%float /\
  Legacy.evaluate pow "2^3^2" = Returns 512%float.
Proof.
  intros pow Hinner Houter.
  assert (Hvalue : evaluate pow "2^3^2" =
                   Returns (pow 2%float (pow 3%float 2%float)))
    by (vm_compute; reflexivity).
  assert (Hlegacy : Legacy.evaluate pow "2^3^2" =
                    Returns (pow 2%float (pow 3%float 2%float)))
    by (vm_compute; reflexivity).
  split; [vm_compute; reflexivity |].
  split; [vm_compute; reflexivity |].
  split; [exact Hvalue |].
  rewrite Hvalue, Hlegacy, Hinner, Houter. split; reflexivity.
Qed.

Lemma evaluate_right_associative_witness :
  integral_pow 3%float 2%float = 9%float /\
  integral_pow 2%float 9%float = 512%float /\
  evaluate integral_pow "2^3^2" = Returns 512%float.
Proof.
  split; [vm_compute; reflexivity |].
  split; [vm_compute; reflexivity |].
  apply (evaluate_right_associative integral_pow); vm_compute; reflexivity.
Defined.

(** C4. A division by a right operand equal to 0.0 fails with the division
    error in the variant with parentheses; the older variant has no such
    guard, and its [evaluate("1/0")] returns the quotient, infinity. *)
Theorem legacy_division_by_zero_returns :
  forall pow : float -> float -> float,
  Legacy.infix_to_postfix "1/0" = Returns ["1"; "0"; "/"] /\
  Legacy.evaluate pow "1/0" = Returns infinity /\
  evaluate pow "1/0" = Throws DivisionByZero.
Proof.
  intros pow. by_evaluation.
Qed.

(** C5. For ["(1+2"] the parenthesis left on the operator stack is moved to
    the output and met by the evaluation as an operator with one operand:
    [evaluate] fails with the error of too few operands, not with the one
    of mismatched parentheses. *)
Theorem unclosed_parenthesis_insufficient_operands :
  forall pow : float -> float -> float,
  infix_to_postfix "(1+2" = Returns ["1"; "2"; "+"; "("] /\
  evaluate pow "(1+2" = Throws InsufficientOperands /\
  InsufficientOperands <> MismatchedParentheses.
Proof.
  intros pow. repeat split; try (vm_compute; reflexivity).
  discriminate.
Qed.

(** C6. In ["(2+3)*4"] the [*] follows [)], which is no digit, so it is
    taken for a unary sign and joined to the 4: the token ["*4"] is no
    number and [evaluate] fails instead of returning 20.0. *)
Theorem operator_after_parenthesis_invalid_number :
  forall pow : float -> float -> float,
  infix_to_postfix "(2+3)*4" = Returns ["2"; "3"; "+"; "*4"] /\
  stod "*4" = stod_invalid /\
  evaluate pow "(2+3)*4" = Throws (InvalidNumber "*4").
Proof.
  intros pow. by_evaluation.
Qed.

(** C7. A sign after an operator is joined to the literal that follows:
    [evaluate("3*-2")] returns -6.0. A sign at the very start of the
    expression makes the scan read [expression[2^64 - 1]], so ["-3+5"] has
    no defined value; behind a space the same expression returns 2.0. *)
Theorem leading_sign_out_of_bounds :
  forall pow : float -> float -> float,
  evaluate pow "3*-2" = Returns (-6)%float /\
  evaluate pow "-3+5" = OutOfBounds (size_t_modulus - 1) /\
  evaluate pow " -3+5" = Returns 2%float.
Proof.
  intros pow. by_evaluation.
Qed.

(** C8. The empty string fails with the error of an empty expression; a
    string of one or more spaces yields no token and fails, in the variant
    with parentheses, with the error of too many operands. *)
Theorem spaces_only_malformed :
  forall (pow : float -> float -> float) (n : nat),
  evaluate pow "" = Throws EmptyExpression /\
  infix_to_postfix (spaces (S n)) = Returns [] /\
  evaluate pow (spaces (S n)) = Throws MalformedExpression /\
  evaluate pow "   " = Throws MalformedExpression /\
  MalformedExpression <> EmptyExpression.
Proof.
  intros pow n. split; [reflexivity |].
  split; [apply infix_to_postfix_spaces |].
  split; [| split].
  - apply evaluate_no_tokens; [reflexivity | apply infix_to_postfix_spaces].
  - apply (evaluate_no_tokens pow (spaces 3));
      [reflexivity | apply infix_to_postfix_spaces].
  - discriminate.
Qed.

(** C9. A space before a binary operator changes the outcome: in ["1 + 2"]
    the [+] follows a space, is taken for a unary sign, and the single token
    ["1+2"] converts to 1.0, while [evaluate("1+2")] returns 3.0; so in both
    variants. *)
Theorem space_before_operator_changes_outcome :
  forall pow : float -> float -> float,
  infix_to_postfix "1 + 2" = Returns ["1+2"] /\
  stod "1+2" = stod_value 1%float /\
  evaluate pow "1 + 2" = Returns 1%float /\
  evaluate pow "1+2" = Returns 3%float /\
  Legacy.evaluate pow "1 + 2" = Returns 1%float /\
  Legacy.evaluate pow "1+2" = Returns 3%float.
Proof.
  intros pow. by_evaluation.
Qed.

(** C10. When the first character of the expression is an operator symbol,
    the look-back [expression[i-1]] is evaluated at [i = 0], where the
    unsigned [i - 1] is [2^64 - 1]: the guard [i - 1 < 0] is false and the
    read is outside the string, in both variants. *)
Theorem lookback_at_first_character_out_of_bounds :
  size_t_wrap (0 - 1) = 18446744073709551615 /\
  (size_t_wrap (0 - 1) <? 0) = false /\
  string_length "-3+5" = 4 /\
  string_at "-3+5" (size_t_wrap (0 - 1)) = None /\
  infix_to_postfix "-3+5" = OutOfBounds 18446744073709551615 /\
  Legacy.infix_to_postfix "-3+5" = OutOfBounds 18446744073709551615.
Proof.
  by_evaluation.
Qed.


(** * Further properties of the code *)

(** ** The scan as a function of the characters *)

Lemma string_app_assoc (s1 s2 s3 : string) :
  (s1 ++ s2) ++ s3 = s1 ++ (s2 ++ s3).
Proof.
  induction s1 as [| c s1 IH]; cbn [append]; [reflexivity | now rewrite IH].
Qed.

Lemma string_app_nil_r (s : string) : s ++ "" = s.
Proof.
  induction s as [| c s IH]; cbn [append]; [reflexivity | now rewrite IH].
Qed.

Lemma string_length_app (s1 s2 : string) :
  string_length (s1 ++ s2) = string_length s1 + string_length s2.
Proof.
  induction s1 as [| c s1 IH]; cbn [append].
  - reflexivity.
  - rewrite !string_length_cons, IH. lia.
Qed.

(** Reading past a prefix is reading what follows it. *)
Lemma string_at_app (pre s : string) :
  forall k, 0 <= k ->
  string_at (pre ++ s) (string_length pre + k) = string_at s k.
Proof.
  induction pre as [| c pre IH]; intros k Hk.
  - reflexivity.
  - cbn [append string_at]. rewrite string_length_cons.
    pose proof (string_length_nonneg pre).
    destruct (1 + string_length pre + k =? 0) eqn:Hzero.
    + apply Z.eqb_eq in Hzero. lia.
    + replace (1 + string_length pre + k - 1) with (string_length pre + k)
        by lia.
      now apply IH.
Qed.

(** Past the first character, the loop over the indices is the scan of the
    characters. *)
Lemma scan_loop_chars (suffix : string) :
  forall (pre : string) (p : ascii) (st : scan_state),
  string_length (pre ++ String p suffix) < size_t_modulus ->
  scan_loop (pre ++ String p suffix) (String.length suffix)
    (string_length pre + 1) st =
  scan_chars p suffix st.
Proof.
  induction suffix as [| c suffix IH]; intros pre p st Hfits.
  - reflexivity.
  - cbn [String.length scan_loop scan_chars].
    pose proof (string_length_nonneg pre) as Hpre.
    rewrite string_length_app, !string_length_cons in Hfits.
    pose proof (string_length_nonneg suffix) as Hsuffix.
    assert (Hstep : scan_step (pre ++ String p (String c suffix))
                      (string_length pre + 1) st =
                    scan_char c (Returns (negb (isdigit p))) st).
    { unfold scan_step, unary_test.
      rewrite string_at_app by lia.
      rewrite size_t_wrap_never_negative, size_t_wrap_before by lia.
      replace (string_length pre + 1 - 1) with (string_length pre + 0) by lia.
      rewrite string_at_app by lia. reflexivity. }
    rewrite Hstep.
    destruct (scan_char c (Returns (negb (isdigit p))) st) as [st' | e | index];
      cbn [bind]; try reflexivity.
    replace (pre ++ String p (String c suffix))
      with ((pre ++ String p "") ++ String c suffix)
      by (rewrite string_app_assoc; reflexivity).
    replace (string_length pre + 1 + 1)
      with (string_length (pre ++ String p "") + 1)
      by (rewrite string_length_app, string_length_cons;
          change (string_length "") with 0; lia).
    apply IH.
    rewrite !string_length_app, !string_length_cons.
    change (string_length "") with 0. lia.
Qed.

(** A character that is no operator character is handled without the unary
    test. *)
Lemma scan_char_without_test (c : ascii) (unary unary' : outcome bool)
    (st : scan_state) :
  operator_char c = false ->
  scan_char c unary st = scan_char c unary' st.
Proof.
  intros Hop. unfold scan_char. unfold operator_char in Hop.
  destruct (isdigit c || Ascii.eqb c "." || Ascii.eqb c ","); [reflexivity |].
  destruct (Ascii.eqb c "("); [reflexivity |].
  destruct (Ascii.eqb c ")"); [reflexivity |].
  destruct (Ascii.eqb c " "); [reflexivity | discriminate].
Qed.

(** When the expression does not start with an operator character, the whole
    loop is the scan of its characters, whatever one assumes in front. *)
Lemma scan_loop_from_start (c before : ascii) (rest : string)
    (st : scan_state) :
  string_length (String c rest) < size_t_modulus ->
  operator_char c = false ->
  scan_loop (String c rest) (String.length (String c rest)) 0 st =
  scan_chars before (String c rest) st.
Proof.
  intros Hfits Hop. cbn [String.length scan_loop scan_chars].
  unfold scan_step. cbn [string_at]. rewrite Z.eqb_refl.
  rewrite (scan_char_without_test c _ (Returns (negb (isdigit before))) st Hop).
  destruct (scan_char c _ st) as [st' | e | index]; cbn [bind];
    try reflexivity.
  exact (scan_loop_chars rest "" c st' Hfits).
Qed.

(** The conversion of such an expression is the scan of its characters
    followed by the final pushes. *)
Lemma infix_to_postfix_scan_chars (c before : ascii) (rest : string) :
  string_length (String c rest) < size_t_modulus ->
  operator_char c = false ->
  infix_to_postfix (String c rest) =
  (st <- scan_chars before (String c rest) initial_state ;;
   Returns (finish_scan st)).
Proof.
  intros Hfits Hop. unfold infix_to_postfix.
  rewrite (scan_loop_from_start c before rest initial_state Hfits Hop).
  reflexivity.
Qed.

(** The scan runs through an expression part by part. *)
Lemma scan_chars_app (s1 : string) :
  forall (before : ascii) (s2 : string) (st : scan_state),
  scan_chars before (s1 ++ s2) st =
  (st' <- scan_chars before s1 st ;; scan_chars (last_char before s1) s2 st').
Proof.
  induction s1 as [| c s1 IH]; intros before s2 st.
  - reflexivity.
  - cbn [append scan_chars last_char].
    destruct (scan_char c _ st) as [st' | e | index]; cbn [bind];
      [apply IH | reflexivity | reflexivity].
Qed.

(** *** Numbers *)

Lemma number_char_not_operator (c : ascii) :
  number_char c = true -> operator_char c = false.
Proof.
  intros Hc. unfold operator_char. unfold number_char in Hc.
  rewrite Hc. reflexivity.
Qed.

(** A character of a number is appended to the pending literal, a comma as
    a point. *)
Lemma scan_char_number (c : ascii) (unary : outcome bool) (st : scan_state) :
  number_char c = true ->
  scan_char c unary st =
  Returns {| output := output st;
             Operators := Operators st;
             current_num :=
               push_back (current_num st)
                 (if Ascii.eqb c "," then "."%char else c);
             previous_num := true |}.
Proof.
  intros Hc. unfold scan_char. unfold number_char in Hc.
  rewrite Hc. reflexivity.
Qed.

(** So is a run of such characters as a whole. *)
Lemma scan_chars_number (s : string) :
  forall (before : ascii) (rest : string) (st : scan_state),
  all_number_chars s = true ->
  scan_chars before (s ++ rest) st =
  scan_chars (last_char before s) rest (after_number st s).
Proof.
  induction s as [| c s IH]; intros before rest st Hs.
  - cbn [append last_char]. unfold after_number. cbn [dots string_empty negb].
    rewrite string_app_nil_r, orb_false_r. destruct st; reflexivity.
  - cbn [all_number_chars] in Hs. apply andb_prop in Hs as [Hc Hs].
    cbn [append scan_chars last_char].
    rewrite scan_char_number by exact Hc. cbn [bind].
    rewrite IH by exact Hs. f_equal.
    unfold after_number, push_back.
    cbn [output Operators current_num previous_num dots string_empty negb].
    rewrite string_app_assoc, orb_true_r. reflexivity.
Qed.

Lemma last_char_nonempty (s : string) (before before' : ascii) :
  string_empty s = false -> last_char before s = last_char before' s.
Proof.
  destruct s as [| c s]; [discriminate | reflexivity].
Qed.

Lemma number_nonempty (s : string) : number s -> string_empty s = false.
Proof.
  intros [_ Hlast]. destruct s as [| c s]; [discriminate | reflexivity].
Qed.

Lemma number_last_digit (s : string) (before : ascii) :
  number s -> isdigit (last_char before s) = true.
Proof.
  intros Hs. rewrite (last_char_nonempty s before " " (number_nonempty s Hs)).
  exact (proj2 Hs).
Qed.

Lemma number_first (s : string) :
  number s -> exists c s', s = String c s' /\ number_char c = true.
Proof.
  intros Hs. pose proof (number_nonempty s Hs) as Hnonempty.
  destruct s as [| c s']; [discriminate |].
  destruct Hs as [Hchars _]. cbn [all_number_chars] in Hchars.
  apply andb_prop in Hchars as [Hc _]. exists c, s'. split; [reflexivity | exact Hc].
Qed.

Lemma dots_nonempty (s : string) : string_empty (dots s) = string_empty s.
Proof.
  destruct s; reflexivity.
Qed.

(** The literal of a number passes the test of [evaluate] for numbers. *)
Lemma is_number_literal (s : string) :
  all_number_chars s = true -> string_empty s = false ->
  is_number (dots s) = true.
Proof.
  intros Hchars Hnonempty. destruct s as [| c s']; [discriminate |].
  cbn [all_number_chars] in Hchars. apply andb_prop in Hchars as [Hc _].
  cbn [dots is_number]. unfold number_char in Hc.
  destruct (Ascii.eqb c ",") eqn:Hcomma; [reflexivity |].
  rewrite orb_false_r in Hc. rewrite Hc. reflexivity.
Qed.

Lemma is_number_dots (s : string) : number s -> is_number (dots s) = true.
Proof.
  intros Hs. apply is_number_literal; [exact (proj1 Hs) |].
  exact (number_nonempty s Hs).
Qed.

(** The scan of an expression that starts with a number: the literal of the
    number is pending when what follows it is met. *)
Lemma infix_to_postfix_after_number (a rest : string) :
  number a ->
  string_length (a ++ rest) < size_t_modulus ->
  infix_to_postfix (a ++ rest) =
  (st <- scan_chars (last_char " " a) rest
           {| output := []; Operators := []; current_num := dots a;
              previous_num := true |} ;;
   Returns (finish_scan st)).
Proof.
  intros Ha Hfits.
  destruct (number_first a Ha) as (c & a' & Heq & Hc).
  destruct Ha as [Hchars _]. subst a.
  cbn [append] in Hfits |- *.
  rewrite (infix_to_postfix_scan_chars c " " _ Hfits
             (number_char_not_operator c Hc)).
  change (String c (a' ++ rest)) with (String c a' ++ rest).
  rewrite scan_chars_number by exact Hchars.
  reflexivity.
Qed.

(** *** Operators *)

(** An operator character after a digit is a binary operator: the pending
    literal goes to the output and the operator onto its stack, after the
    operators that it sends to the output. *)
Lemma scan_char_binary (op before : ascii) (st : scan_state) :
  operator_char op = true ->
  isdigit before = true ->
  scan_char op (Returns (negb (isdigit before))) st =
  ('(out, ops) <-
     pop_operators (String op "")
       (if previous_num st then current_num st :: output st else output st)
       (Operators st) ;;
   Returns {| output := out;
              Operators := String op "" :: ops;
              current_num := if previous_num st then "" else current_num st;
              previous_num := false |}).
Proof.
  intros Hop Hbefore. unfold scan_char. unfold operator_char in Hop.
  rewrite Hbefore.
  destruct (isdigit op || Ascii.eqb op "." || Ascii.eqb op ","); [discriminate |].
  destruct (Ascii.eqb op "("); [discriminate |].
  destruct (Ascii.eqb op ")"); [discriminate |].
  destruct (Ascii.eqb op " "); [discriminate |].
  reflexivity.
Qed.

(** After any other character it is a sign: it joins the pending literal. *)
Lemma scan_char_sign (op before : ascii) (st : scan_state) :
  operator_char op = true ->
  isdigit before = false ->
  scan_char op (Returns (negb (isdigit before))) st =
  Returns {| output := output st;
             Operators := Operators st;
             current_num := push_back (current_num st) op;
             previous_num := previous_num st |}.
Proof.
  intros Hop Hbefore. unfold scan_char. unfold operator_char in Hop.
  rewrite Hbefore.
  destruct (isdigit op || Ascii.eqb op "." || Ascii.eqb op ","); [discriminate |].
  destruct (Ascii.eqb op "("); [discriminate |].
  destruct (Ascii.eqb op ")"); [discriminate |].
  destruct (Ascii.eqb op " "); [discriminate |].
  reflexivity.
Qed.

Lemma operator_char_not_paren (op : ascii) :
  operator_char op = true ->
  String.eqb (String op "") "(" = false /\
  String.eqb (String op "") ")" = false.
Proof.
  intros Hop. unfold operator_char in Hop. split.
  - destruct (String.eqb (String op "") "(") eqn:Heq; [| reflexivity].
    apply String.eqb_eq in Heq. injection Heq as ->. discriminate.
  - destruct (String.eqb (String op "") ")") eqn:Heq; [| reflexivity].
    apply String.eqb_eq in Heq. injection Heq as ->. discriminate.
Qed.

Lemma operator_char_not_digit (op : ascii) :
  operator_char op = true -> isdigit op = false.
Proof.
  intros Hop. unfold operator_char in Hop.
  destruct (isdigit op); [discriminate | reflexivity].
Qed.

Lemma is_number_operator (op : ascii) :
  operator_char op = true -> is_number (String op "") = false.
Proof.
  intros Hop. unfold operator_char in Hop. cbn [is_number].
  destruct (isdigit op); [discriminate |].
  destruct (Ascii.eqb op "."); [discriminate | reflexivity].
Qed.

(** The operators of [operator_to_enum] are operator characters. *)
Lemma operator_to_enum_char (op : ascii) (o : Operator) :
  operator_to_enum (String op "") = Returns o -> operator_char op = true.
Proof.
  unfold operator_to_enum. intros Henum.
  repeat match type of Henum with
  | (if String.eqb ?s ?k then _ else _) = _ =>
      let E := fresh "E" in
      destruct (String.eqb s k) eqn:E;
      [apply String.eqb_eq in E; injection E as ->; reflexivity |]
  end.
  discriminate.
Qed.

Lemma string_empty_app (a rest : string) :
  string_empty a = false -> string_empty (a ++ rest) = false.
Proof.
  destruct a as [| d a']; [discriminate | reflexivity].
Qed.

(** ** Numbers and operators in a row *)

Ltac scan_simpl :=
  unfold finish_scan, after_number;
  cbn [scan_chars bind output Operators current_num previous_num
       pop_operators pop_until_paren append orb negb push_rest].

(** An expression that is one number written with digits, points and commas
    converts to one token, the number with its commas turned into points. *)
Lemma literal_postfix (s : string) :
  all_number_chars s = true ->
  string_empty s = false ->
  string_length s < size_t_modulus ->
  infix_to_postfix s = Returns [dots s].
Proof.
  intros Hchars Hnonempty Hfits.
  destruct s as [| c s']; [discriminate |].
  assert (Hc : number_char c = true).
  { cbn [all_number_chars] in Hchars.
    apply andb_prop in Hchars as [Hc _]. exact Hc. }
  rewrite (infix_to_postfix_scan_chars c " " s' Hfits
             (number_char_not_operator c Hc)).
  rewrite <- (string_app_nil_r (String c s')) at 1.
  rewrite scan_chars_number by exact Hchars.
  cbn [scan_chars bind]. unfold finish_scan, after_number.
  cbn [output Operators current_num previous_num initial_state append
       push_rest dots string_empty negb].
  reflexivity.
Qed.

(** For numbers [a] and [b] and an operator character [op], the postfix form
    of [a op b] is [a b op]. *)
Lemma one_operator_postfix (a b : string) (op : ascii) :
  number a -> number b -> operator_char op = true ->
  string_length (a ++ String op b) < size_t_modulus ->
  infix_to_postfix (a ++ String op b) =
  Returns [dots a; dots b; String op ""].
Proof.
  intros Ha Hb Hop Hfits.
  rewrite infix_to_postfix_after_number by assumption.
  cbn [scan_chars].
  rewrite scan_char_binary by (try exact Hop; apply number_last_digit; exact Ha).
  scan_simpl.
  rewrite <- (string_app_nil_r b) at 1.
  rewrite scan_chars_number by exact (proj1 Hb).
  scan_simpl.
  rewrite dots_nonempty, (number_nonempty b Hb). reflexivity.
Qed.

(** For numbers [a], [b], [c] and operator characters [op1], [op2], the
    postfix form of [a op1 b op2 c] applies [op1] first exactly when
    [has_lower_precedence(op2, op1)] holds; an operator missing from the
    table makes the conversion throw what the table lookup throws. *)
Lemma two_operators_postfix (a b c : string) (op1 op2 : ascii) :
  number a -> number b -> number c ->
  operator_char op1 = true -> operator_char op2 = true ->
  string_length (a ++ String op1 (b ++ String op2 c)) < size_t_modulus ->
  infix_to_postfix (a ++ String op1 (b ++ String op2 c)) =
  (lower <- has_lower_precedence (String op2 "") (String op1 "") ;;
   Returns (if lower
            then [dots a; dots b; String op1 ""; dots c; String op2 ""]
            else [dots a; dots b; dots c; String op2 ""; String op1 ""])).
Proof.
  intros Ha Hb Hc Hop1 Hop2 Hfits.
  rewrite infix_to_postfix_after_number by assumption.
  cbn [scan_chars].
  rewrite scan_char_binary
    by (try exact Hop1; apply number_last_digit; exact Ha).
  scan_simpl.
  rewrite scan_chars_number by exact (proj1 Hb).
  cbn [scan_chars].
  rewrite scan_char_binary
    by (try exact Hop2; apply number_last_digit; exact Hb).
  scan_simpl.
  rewrite (number_nonempty b Hb). scan_simpl.
  rewrite (proj1 (operator_char_not_paren op1 Hop1)).
  destruct (has_lower_precedence (String op2 "") (String op1 ""))
    as [[|] | e | index]; scan_simpl; try reflexivity.
  - rewrite <- (string_app_nil_r c) at 1.
    rewrite scan_chars_number by exact (proj1 Hc).
    scan_simpl. rewrite dots_nonempty, (number_nonempty c Hc). reflexivity.
  - rewrite <- (string_app_nil_r c) at 1.
    rewrite scan_chars_number by exact (proj1 Hc).
    scan_simpl. rewrite dots_nonempty, (number_nonempty c Hc). reflexivity.
Qed.

(** An operator character that follows another operator is a sign: it joins
    the literal of the number after it, and the postfix form of [a op s b]
    is [a (s b) op]. *)
Lemma signed_operand_postfix (a b : string) (op sign : ascii) :
  number a -> number b ->
  operator_char op = true -> operator_char sign = true ->
  string_length (a ++ String op (String sign b)) < size_t_modulus ->
  infix_to_postfix (a ++ String op (String sign b)) =
  Returns [dots a; String sign (dots b); String op ""].
Proof.
  intros Ha Hb Hop Hsign Hfits.
  rewrite infix_to_postfix_after_number by assumption.
  cbn [scan_chars].
  rewrite scan_char_binary by (try exact Hop; apply number_last_digit; exact Ha).
  scan_simpl.
  rewrite scan_char_sign
    by (try exact Hsign; apply operator_char_not_digit; exact Hop).
  scan_simpl.
  rewrite <- (string_app_nil_r b) at 1.
  rewrite scan_chars_number by exact (proj1 Hb).
  scan_simpl. unfold push_back. cbn [append string_empty negb]. reflexivity.
Qed.

(** A parenthesised right operand is applied first, whatever the two
    operators are: the postfix form of [c op2 (a op1 b)] is
    [c a b op1 op2]. *)
Lemma parenthesised_operand_postfix (a b c : string)
    (op1 op2 : ascii) :
  number a -> number b -> number c ->
  operator_char op1 = true -> operator_char op2 = true ->
  string_length (c ++ String op2 ("(" ++ a ++ String op1 (b ++ ")")))
    < size_t_modulus ->
  infix_to_postfix (c ++ String op2 ("(" ++ a ++ String op1 (b ++ ")"))) =
  Returns [dots c; dots a; dots b; String op1 ""; String op2 ""].
Proof.
  intros Ha Hb Hc Hop1 Hop2 Hfits.
  rewrite infix_to_postfix_after_number by assumption.
  cbn [scan_chars append].
  rewrite scan_char_binary
    by (try exact Hop2; apply number_last_digit; exact Hc).
  scan_simpl.
  replace (scan_char "(" (Returns (negb (isdigit op2)))
             {| output := [dots c]; Operators := [String op2 ""];
                current_num := ""; previous_num := false |})
    with (Returns {| output := [dots c];
                     Operators := ["("; String op2 ""];
                     current_num := ""; previous_num := false |})
    by reflexivity.
  scan_simpl.
  rewrite scan_chars_number by exact (proj1 Ha).
  cbn [scan_chars].
  rewrite scan_char_binary
    by (try exact Hop1; apply number_last_digit; exact Ha).
  scan_simpl. rewrite (number_nonempty a Ha). scan_simpl.
  replace (String.eqb "(" "(") with true by reflexivity.
  scan_simpl.
  rewrite scan_chars_number by exact (proj1 Hb).
  cbn [scan_chars].
  replace (scan_char ")" (Returns (negb (isdigit (last_char op1 b))))
             (after_number
                {| output := [dots a; dots c];
                   Operators := [String op1 ""; "("; String op2 ""];
                   current_num := ""; previous_num := false |} b))
    with (Returns {| output := [String op1 ""; dots b; dots a; dots c];
                     Operators := [String op2 ""];
                     current_num := "";
                     previous_num := negb (string_empty b) |}).
  - reflexivity.
  - unfold scan_char, after_number.
    cbn [isdigit Ascii.eqb output Operators current_num previous_num append
         orb].
    replace (isdigit ")" || Ascii.eqb ")" "." || Ascii.eqb ")" ",")
      with false by reflexivity.
    replace (Ascii.eqb ")" "(") with false by reflexivity.
    replace (Ascii.eqb ")" ")") with true by reflexivity.
    rewrite dots_nonempty, (number_nonempty b Hb). cbn [negb pop_until_paren].
    rewrite (proj1 (operator_char_not_paren op1 Hop1)).
    cbn [pop_until_paren].
    replace (String.eqb "(" "(") with true by reflexivity.
    reflexivity.
Qed.

(** A closing parenthesis after a first number, with no parenthesis open,
    stops the conversion with the error of mismatched parentheses, whatever
    follows. *)
Lemma unmatched_close_postfix (a rest : string) :
  number a ->
  string_length (a ++ String ")" rest) < size_t_modulus ->
  infix_to_postfix (a ++ String ")" rest) = Throws MismatchedParentheses.
Proof.
  intros Ha Hfits.
  rewrite infix_to_postfix_after_number by assumption.
  cbn [scan_chars].
  replace (scan_char ")" _ _) with (@Throws scan_state MismatchedParentheses).
  - reflexivity.
  - unfold scan_char.
    replace (isdigit ")" || Ascii.eqb ")" "." || Ascii.eqb ")" ",")
      with false by reflexivity.
    replace (Ascii.eqb ")" "(") with false by reflexivity.
    replace (Ascii.eqb ")" ")") with true by reflexivity.
    cbn [current_num output Operators pop_until_paren]. reflexivity.
Qed.

(** ** Two operators, by the table *)

Lemma table_key_operator_char (op : ascii) (p : OperatorProperty) :
  map_at operator_properties (String op "") = Returns p ->
  operator_char op = true.
Proof.
  intros Hat.
  destruct (map_at_operator_properties _ _ Hat)
    as [[Heq _] | [[Heq _] | [[Heq _] | [[Heq _] | [Heq _]]]]];
    injection Heq as ->; reflexivity.
Qed.

(** X5. For numbers [a], [b], [c] and operators [op1], [op2] of the table,
    the postfix form of [a op1 b op2 c] is [a b op1 c op2] when the priority
    of [op2] is below that of [op1], or equal to it with [op2] left
    associative, and [a b c op2 op1] otherwise. *)
Theorem infix_to_postfix_two_operators (a b c : string) (op1 op2 : ascii)
    (p1 p2 : OperatorProperty) :
  number a -> number b -> number c ->
  map_at operator_properties (String op1 "") = Returns p1 ->
  map_at operator_properties (String op2 "") = Returns p2 ->
  string_length (a ++ String op1 (b ++ String op2 c)) < size_t_modulus ->
  infix_to_postfix (a ++ String op1 (b ++ String op2 c)) =
  Returns
    (if (priority p2 <? priority p1)
        || ((priority p2 =? priority p1) && left_associative p2)
     then [dots a; dots b; String op1 ""; dots c; String op2 ""]
     else [dots a; dots b; dots c; String op2 ""; String op1 ""]).
Proof.
  intros Ha Hb Hc Hp1 Hp2 Hfits.
  rewrite two_operators_postfix
    by (try assumption; eapply table_key_operator_char; eassumption).
  rewrite (has_lower_precedence_rule _ _ p2 p1 Hp2 Hp1). reflexivity.
Qed.

(** ** The value of an expression *)

Section Values.

Variable pow : float -> float -> float.

(** [apply_operator] pushes [binary] of the operand below the top and the
    operand on top. *)
Lemma apply_operator_binary (op : Operator) (right left : float)
    (rest : list float) :
  apply_operator pow (right :: left :: rest) op =
  (v <- binary pow op left right ;; Returns (v :: rest)).
Proof.
  rewrite apply_operator_two. destruct op; cbn [binary bind]; try reflexivity.
  destruct (right =? 0)%float; reflexivity.
Qed.

Lemma evaluate_loop_number (token : string) (x : float)
    (rest : list string) (result : list float) :
  is_number token = true -> stod token = stod_value x ->
  evaluate_loop pow (token :: rest) result =
  evaluate_loop pow rest (x :: result).
Proof.
  intros Hnumber Hstod. cbn [evaluate_loop]. unfold evaluate_token.
  rewrite Hnumber, Hstod. reflexivity.
Qed.

Lemma evaluate_loop_operator (token : string) (o : Operator)
    (rest : list string) (right left : float) (result : list float) :
  is_number token = false -> operator_to_enum token = Returns o ->
  evaluate_loop pow (token :: rest) (right :: left :: result) =
  (v <- binary pow o left right ;; evaluate_loop pow rest (v :: result)).
Proof.
  intros Hnumber Henum. cbn [evaluate_loop]. unfold evaluate_token.
  rewrite Hnumber, stack_size_two, Henum. cbn [bind].
  rewrite apply_operator_binary.
  destruct (binary pow o left right) as [v | e | index]; reflexivity.
Qed.

(** [evaluate] of an expression whose postfix form is known. *)
Lemma evaluate_postfix (expression : string) (postfix_expr : list string) :
  string_empty expression = false ->
  infix_to_postfix expression = Returns postfix_expr ->
  evaluate pow expression =
  (result <- evaluate_loop pow postfix_expr [] ;;
   match result with
   | [top] => Returns top
   | _ => Throws MalformedExpression
   end).
Proof.
  intros Hnonempty Hpostfix. unfold evaluate.
  rewrite Hnonempty, Hpostfix. cbn [bind].
  destruct (evaluate_loop pow postfix_expr []) as [result | e | index];
    cbn [bind]; try reflexivity.
  destruct result as [| top [| second result]]; try reflexivity.
  unfold stack_size. cbn [List.length].
  destruct (Z.of_nat (S (S (List.length result))) =? 1) eqn:Hsize;
    [| reflexivity].
  apply Z.eqb_eq in Hsize. lia.
Qed.

(** X3. An expression that is one number written with digits, points and commas
    converts to one token, the number with its commas turned into points,
    and evaluates to what [std::stod] makes of that token. *)
Theorem evaluate_literal (s : string) :
  all_number_chars s = true ->
  string_empty s = false ->
  string_length s < size_t_modulus ->
  infix_to_postfix s = Returns [dots s] /\
  evaluate pow s =
  match stod (dots s) with
  | stod_value x => Returns x
  | stod_invalid => Throws (InvalidNumber (dots s))
  | stod_range => Throws (NumberOutOfRange (dots s))
  end.
Proof.
  intros Hchars Hnonempty Hfits.
  split; [exact (literal_postfix s Hchars Hnonempty Hfits) |].
  rewrite (evaluate_postfix s [dots s] Hnonempty
             (literal_postfix s Hchars Hnonempty Hfits)).
  cbn [evaluate_loop]. unfold evaluate_token.
  rewrite (is_number_literal s Hchars Hnonempty).
  destruct (stod (dots s)); reflexivity.
Qed.

(** X4. For numbers [a] and [b] and an operator character [op], the postfix form
    of [a op b] is [a b op], and [evaluate] applies the operator with the
    number before it as left operand and the number after it as right
    operand; a character that [operator_to_enum] does not know is reported
    once both numbers are read. *)
Theorem evaluate_one_operator (a b : string) (op : ascii) (x y : float) :
  number a -> number b -> operator_char op = true ->
  string_length (a ++ String op b) < size_t_modulus ->
  stod (dots a) = stod_value x -> stod (dots b) = stod_value y ->
  infix_to_postfix (a ++ String op b) =
    Returns [dots a; dots b; String op ""] /\
  evaluate pow (a ++ String op b) =
    (o <- operator_to_enum (String op "") ;; binary pow o x y).
Proof.
  intros Ha Hb Hop Hfits Hx Hy.
  split; [exact (one_operator_postfix a b op Ha Hb Hop Hfits) |].
  rewrite (evaluate_postfix _ _ (string_empty_app a _ (number_nonempty a Ha))
             (one_operator_postfix a b op Ha Hb Hop Hfits)).
  rewrite (evaluate_loop_number _ x) by (try apply is_number_dots; assumption).
  rewrite (evaluate_loop_number _ y) by (try apply is_number_dots; assumption).
  destruct (operator_to_enum (String op "")) as [o | e | index] eqn:Henum.
  - rewrite (evaluate_loop_operator _ o)
      by (try apply is_number_operator; assumption).
    cbn [bind evaluate_loop].
    destruct (binary pow o x y) as [v | e | index]; reflexivity.
  - cbn [evaluate_loop]. unfold evaluate_token.
    rewrite (is_number_operator op Hop), stack_size_two, Henum. reflexivity.
  - cbn [evaluate_loop]. unfold evaluate_token.
    rewrite (is_number_operator op Hop), stack_size_two, Henum. reflexivity.
Qed.

(** X6. [evaluate] of [a op1 b op2 c] for two operators of the evaluator:
    [(a op1 b) op2 c] when [has_lower_precedence(op2, op1)] holds, and
    [a op1 (b op2 c)] otherwise. *)
Theorem evaluate_two_operators (a b c : string) (op1 op2 : ascii)
    (o1 o2 : Operator) (x y z : float) :
  number a -> number b -> number c ->
  operator_to_enum (String op1 "") = Returns o1 ->
  operator_to_enum (String op2 "") = Returns o2 ->
  string_length (a ++ String op1 (b ++ String op2 c)) < size_t_modulus ->
  stod (dots a) = stod_value x ->
  stod (dots b) = stod_value y ->
  stod (dots c) = stod_value z ->
  evaluate pow (a ++ String op1 (b ++ String op2 c)) =
  (lower <- has_lower_precedence (String op2 "") (String op1 "") ;;
   if lower
   then v <- binary pow o1 x y ;; binary pow o2 v z
   else v <- binary pow o2 y z ;; binary pow o1 x v).
Proof.
  intros Ha Hb Hc Ho1 Ho2 Hfits Hx Hy Hz.
  pose proof (operator_to_enum_char op1 o1 Ho1) as Hop1.
  pose proof (operator_to_enum_char op2 o2 Ho2) as Hop2.
  pose proof (two_operators_postfix a b c op1 op2
                Ha Hb Hc Hop1 Hop2 Hfits) as Hpostfix.
  pose proof (string_empty_app a (String op1 (b ++ String op2 c))
                (number_nonempty a Ha)) as Hnonempty.
  destruct (has_lower_precedence (String op2 "") (String op1 ""))
    as [[|] | e | index]; cbn [bind] in Hpostfix |- *.
  - rewrite (evaluate_postfix _ _ Hnonempty Hpostfix).
    rewrite (evaluate_loop_number _ x) by (try apply is_number_dots; assumption).
    rewrite (evaluate_loop_number _ y) by (try apply is_number_dots; assumption).
    rewrite (evaluate_loop_operator _ o1)
      by (try apply is_number_operator; assumption).
    destruct (binary pow o1 x y) as [v | e | index]; cbn [bind];
      try reflexivity.
    rewrite (evaluate_loop_number _ z) by (try apply is_number_dots; assumption).
    rewrite (evaluate_loop_operator _ o2)
      by (try apply is_number_operator; assumption).
    cbn [evaluate_loop].
    destruct (binary pow o2 v z) as [w | e | index]; reflexivity.
  - rewrite (evaluate_postfix _ _ Hnonempty Hpostfix).
    rewrite (evaluate_loop_number _ x) by (try apply is_number_dots; assumption).
    rewrite (evaluate_loop_number _ y) by (try apply is_number_dots; assumption).
    rewrite (evaluate_loop_number _ z) by (try apply is_number_dots; assumption).
    rewrite (evaluate_loop_operator _ o2)
      by (try apply is_number_operator; assumption).
    destruct (binary pow o2 y z) as [v | e | index]; cbn [bind];
      try reflexivity.
    rewrite (evaluate_loop_operator _ o1)
      by (try apply is_number_operator; assumption).
    cbn [evaluate_loop].
    destruct (binary pow o1 x v) as [w | e | index]; reflexivity.
  - unfold evaluate. rewrite Hnonempty, Hpostfix. reflexivity.
  - unfold evaluate. rewrite Hnonempty, Hpostfix. reflexivity.
Qed.

End Values.

(** ** The table and the enumeration *)

(** X14. [operator_properties] and [operator_to_enum] know the same operators:
    the lookup in the table succeeds exactly for the strings that convert
    to an [Operator]. *)
Theorem operator_table_matches_enum (op : string) :
  (exists p, map_at operator_properties op = Returns p) <->
  (exists o, operator_to_enum op = Returns o).
Proof.
  unfold operator_properties, operator_to_enum. cbn [map_at].
  rewrite (String.eqb_sym "+" op), (String.eqb_sym "-" op),
    (String.eqb_sym "*" op), (String.eqb_sym "/" op),
    (String.eqb_sym "^" op).
  destruct (String.eqb op "+"); [split; intros _; eauto |].
  destruct (String.eqb op "-"); [split; intros _; eauto |].
  destruct (String.eqb op "*"); [split; intros _; eauto |].
  destruct (String.eqb op "/"); [split; intros _; eauto |].
  destruct (String.eqb op "^"); [split; intros _; eauto |].
  split; intros [? H]; discriminate H.
Qed.

(** A string that is no key of the table makes [has_lower_precedence] throw
    the [std::out_of_range] of the lookup, unless a parenthesis is
    compared. *)
Lemma has_lower_precedence_missing (op1 op2 : ascii) :
  operator_char op1 = true -> operator_char op2 = true ->
  map_at operator_properties (String op1 "") =
    Throws (map_out_of_range (String op1 "")) ->
  has_lower_precedence (String op1 "") (String op2 "") =
  Throws (map_out_of_range (String op1 "")).
Proof.
  intros Hop1 Hop2 Hmissing. unfold has_lower_precedence.
  destruct (operator_char_not_paren op1 Hop1) as [-> ->].
  destruct (operator_char_not_paren op2 Hop2) as [-> ->].
  cbn [orb]. rewrite Hmissing. reflexivity.
Qed.

Section MoreValues.

Variable pow : float -> float -> float.

(** X11. A second operator that is no key of the table stops [evaluate] with the
    [std::out_of_range] of the lookup: the first operator is on the stack
    when it is compared. *)
Theorem evaluate_missing_operator (a b c : string) (op1 op2 : ascii) :
  number a -> number b -> number c ->
  operator_char op1 = true -> operator_char op2 = true ->
  map_at operator_properties (String op2 "") =
    Throws (map_out_of_range (String op2 "")) ->
  string_length (a ++ String op1 (b ++ String op2 c)) < size_t_modulus ->
  infix_to_postfix (a ++ String op1 (b ++ String op2 c)) =
    Throws (map_out_of_range (String op2 "")) /\
  evaluate pow (a ++ String op1 (b ++ String op2 c)) =
    Throws (map_out_of_range (String op2 "")).
Proof.
  intros Ha Hb Hc Hop1 Hop2 Hmissing Hfits.
  assert (Hpostfix : infix_to_postfix (a ++ String op1 (b ++ String op2 c)) =
                     Throws (map_out_of_range (String op2 ""))).
  { rewrite two_operators_postfix by assumption.
    rewrite has_lower_precedence_missing by assumption.
    reflexivity. }
  split; [exact Hpostfix |]. unfold evaluate.
  rewrite (string_empty_app a _ (number_nonempty a Ha)), Hpostfix.
  reflexivity.
Qed.

(** X7. An operator character that follows an operator is a sign: it joins the
    literal of the number after it, the postfix form of [a op s b] is
    [a (s b) op], and the right operand of [op] is what [std::stod] makes of
    the literal with its sign. *)
Theorem evaluate_signed_operand (a b : string) (op sign : ascii)
    (o : Operator) (x y : float) :
  number a -> number b ->
  operator_to_enum (String op "") = Returns o ->
  operator_char sign = true ->
  string_length (a ++ String op (String sign b)) < size_t_modulus ->
  stod (dots a) = stod_value x ->
  stod (String sign (dots b)) = stod_value y ->
  infix_to_postfix (a ++ String op (String sign b)) =
    Returns [dots a; String sign (dots b); String op ""] /\
  evaluate pow (a ++ String op (String sign b)) = binary pow o x y.
Proof.
  intros Ha Hb Ho Hsign Hfits Hx Hy.
  pose proof (operator_to_enum_char op o Ho) as Hop.
  split; [exact (signed_operand_postfix a b op sign Ha Hb Hop Hsign Hfits) |].
  rewrite (evaluate_postfix pow _ _
             (string_empty_app a _ (number_nonempty a Ha))
             (signed_operand_postfix a b op sign
                Ha Hb Hop Hsign Hfits)).
  rewrite (evaluate_loop_number pow _ x)
    by (try apply is_number_dots; assumption).
  rewrite (evaluate_loop_number pow _ y);
    [| cbn [is_number]; rewrite (is_number_dots b Hb);
       rewrite !orb_true_r; reflexivity
     | exact Hy].
  rewrite (evaluate_loop_operator pow _ o)
    by (try apply is_number_operator; assumption).
  cbn [evaluate_loop].
  destruct (binary pow o x y) as [v | e | index]; reflexivity.
Qed.

(** X8. A parenthesised right operand is applied first, whatever the two
    operators are: the postfix form of [c op2 (a op1 b)] is
    [c a b op1 op2], and the value of [a op1 b] is the right operand of
    [op2]. *)
Theorem evaluate_parenthesised_operand (a b c : string) (op1 op2 : ascii)
    (o1 o2 : Operator) (x y z : float) :
  number a -> number b -> number c ->
  operator_to_enum (String op1 "") = Returns o1 ->
  operator_to_enum (String op2 "") = Returns o2 ->
  string_length (c ++ String op2 ("(" ++ a ++ String op1 (b ++ ")")))
    < size_t_modulus ->
  stod (dots a) = stod_value x ->
  stod (dots b) = stod_value y ->
  stod (dots c) = stod_value z ->
  infix_to_postfix (c ++ String op2 ("(" ++ a ++ String op1 (b ++ ")"))) =
    Returns [dots c; dots a; dots b; String op1 ""; String op2 ""] /\
  evaluate pow (c ++ String op2 ("(" ++ a ++ String op1 (b ++ ")"))) =
    (v <- binary pow o1 x y ;; binary pow o2 z v).
Proof.
  intros Ha Hb Hc Ho1 Ho2 Hfits Hx Hy Hz.
  pose proof (operator_to_enum_char op1 o1 Ho1) as Hop1.
  pose proof (operator_to_enum_char op2 o2 Ho2) as Hop2.
  split;
    [exact (parenthesised_operand_postfix a b c op1 op2
              Ha Hb Hc Hop1 Hop2 Hfits) |].
  rewrite (evaluate_postfix pow _ _
             (string_empty_app c _ (number_nonempty c Hc))
             (parenthesised_operand_postfix a b c op1 op2
                Ha Hb Hc Hop1 Hop2 Hfits)).
  rewrite (evaluate_loop_number pow _ z)
    by (try apply is_number_dots; assumption).
  rewrite (evaluate_loop_number pow _ x)
    by (try apply is_number_dots; assumption).
  rewrite (evaluate_loop_number pow _ y)
    by (try apply is_number_dots; assumption).
  rewrite (evaluate_loop_operator pow _ o1)
    by (try apply is_number_operator; assumption).
  destruct (binary pow o1 x y) as [v | e | index]; cbn [bind];
    try reflexivity.
  rewrite (evaluate_loop_operator pow _ o2)
    by (try apply is_number_operator; assumption).
  cbn [evaluate_loop].
  destruct (binary pow o2 z v) as [w | e | index]; reflexivity.
Qed.

(** X9. A closing parenthesis after a first number, with no parenthesis open,
    stops the conversion, and so [evaluate], with the error of mismatched
    parentheses, whatever follows. *)
Theorem evaluate_unmatched_close (a rest : string) :
  number a ->
  string_length (a ++ String ")" rest) < size_t_modulus ->
  infix_to_postfix (a ++ String ")" rest) = Throws MismatchedParentheses /\
  evaluate pow (a ++ String ")" rest) = Throws MismatchedParentheses.
Proof.
  intros Ha Hfits.
  split; [exact (unmatched_close_postfix a rest Ha Hfits) |]. unfold evaluate.
  rewrite (string_empty_app a _ (number_nonempty a Ha)).
  rewrite unmatched_close_postfix by assumption.
  reflexivity.
Qed.

End MoreValues.

(** ** Spaces *)

Lemma scan_chars_spaces (n : nat) :
  forall (before : ascii) (st : scan_state),
  scan_chars before (spaces n) st = Returns st.
Proof.
  induction n as [| n IH]; intros before st; [reflexivity |].
  cbn [spaces scan_chars].
  replace (scan_char " " (Returns (negb (isdigit before))) st)
    with (Returns st) by reflexivity.
  cbn [bind]. apply IH.
Qed.

(** What does not start with an operator character is scanned the same
    after any character. *)
Lemma scan_chars_without_test (s : string) (before before' : ascii)
    (st : scan_state) :
  starts_with_operator s = false ->
  scan_chars before s st = scan_chars before' s st.
Proof.
  intros Hstart. destruct s as [| c s]; [reflexivity |].
  cbn [starts_with_operator] in Hstart. cbn [scan_chars].
  now rewrite (scan_char_without_test c _
                 (Returns (negb (isdigit before'))) st Hstart).
Qed.

Lemma scan_chars_skip_spaces (n : nat) (s : string) (before : ascii)
    (st : scan_state) :
  starts_with_operator s = false ->
  scan_chars before (spaces n ++ s) st = scan_chars before s st.
Proof.
  intros Hstart. rewrite scan_chars_app, scan_chars_spaces. cbn [bind].
  now apply scan_chars_without_test.
Qed.

Lemma starts_with_operator_spaces (n : nat) (s : string) :
  starts_with_operator s = false ->
  starts_with_operator (spaces n ++ s) = false.
Proof.
  intros Hstart. destruct n as [| n]; [exact Hstart | reflexivity].
Qed.

(** The conversion of any expression, by its first character. *)
Lemma infix_to_postfix_cases (expression : string) (before : ascii) :
  string_length expression < size_t_modulus ->
  infix_to_postfix expression =
  if starts_with_operator expression then OutOfBounds (size_t_modulus - 1)
  else (st <- scan_chars before expression initial_state ;;
        Returns (finish_scan st)).
Proof.
  intros Hfits. destruct expression as [| c rest]; [reflexivity |].
  cbn [starts_with_operator]. destruct (operator_char c) eqn:Hop.
  - apply infix_to_postfix_first_operator; assumption.
  - apply infix_to_postfix_scan_chars; assumption.
Qed.

Lemma spaces_postfix (e1 e2 : string) (n : nat) :
  starts_with_operator e2 = false ->
  string_length (e1 ++ spaces n ++ e2) < size_t_modulus ->
  infix_to_postfix (e1 ++ spaces n ++ e2) = infix_to_postfix (e1 ++ e2).
Proof.
  intros Hstart Hfits.
  assert (Hfits' : string_length (e1 ++ e2) < size_t_modulus).
  { rewrite !string_length_app in Hfits. rewrite string_length_app.
    pose proof (string_length_nonneg (spaces n)). lia. }
  rewrite (infix_to_postfix_cases _ " " Hfits).
  rewrite (infix_to_postfix_cases _ " " Hfits').
  assert (Hfirst : starts_with_operator (e1 ++ spaces n ++ e2) =
                   starts_with_operator (e1 ++ e2)).
  { destruct e1 as [| c e1]; [| reflexivity].
    cbn [append]. rewrite Hstart.
    apply starts_with_operator_spaces. exact Hstart. }
  rewrite Hfirst.
  destruct (starts_with_operator (e1 ++ e2)); [reflexivity |].
  rewrite !scan_chars_app.
  destruct (scan_chars " " e1 initial_state) as [st | e | index];
    cbn [bind]; try reflexivity.
  rewrite scan_chars_skip_spaces by exact Hstart. reflexivity.
Qed.

Section SpacesValue.

Variable pow : float -> float -> float.

(** X12. Spaces are ignored wherever they do not stand right before an operator
    character: in front of a number or a parenthesis, and at the end of the
    expression, they change neither the postfix form nor the outcome of
    [evaluate]. *)
Theorem evaluate_ignores_spaces (e1 e2 : string) (n : nat) :
  starts_with_operator e2 = false ->
  string_empty (e1 ++ e2) = false ->
  string_length (e1 ++ spaces n ++ e2) < size_t_modulus ->
  infix_to_postfix (e1 ++ spaces n ++ e2) = infix_to_postfix (e1 ++ e2) /\
  evaluate pow (e1 ++ spaces n ++ e2) = evaluate pow (e1 ++ e2).
Proof.
  intros Hstart Hnonempty Hfits.
  split; [exact (spaces_postfix e1 e2 n Hstart Hfits) |]. unfold evaluate.
  rewrite spaces_postfix by assumption.
  rewrite Hnonempty.
  replace (string_empty (e1 ++ spaces n ++ e2)) with false; [reflexivity |].
  destruct e1 as [| c e1]; [| reflexivity].
  destruct n as [| n]; [| reflexivity].
  cbn [append spaces] in Hnonempty |- *. symmetry. exact Hnonempty.
Qed.

End SpacesValue.

(** ** A space before an operator *)

Lemma last_char_spaces (n : nat) (before : ascii) :
  last_char before (spaces (S n)) = " "%char.
Proof.
  revert before. induction n as [| n IH]; intros before; [reflexivity |].
  change (spaces (S (S n))) with (String " " (spaces (S n))).
  cbn [last_char]. apply IH.
Qed.

Lemma merged_postfix (a b : string) (op : ascii) (n : nat) :
  number a -> number b -> operator_char op = true ->
  string_length (a ++ spaces (S n) ++ String op b) < size_t_modulus ->
  infix_to_postfix (a ++ spaces (S n) ++ String op b) =
  Returns [dots a ++ String op (dots b)].
Proof.
  intros Ha Hb Hop Hfits.
  rewrite infix_to_postfix_after_number by assumption.
  rewrite scan_chars_app, scan_chars_spaces. cbn [bind].
  rewrite last_char_spaces. cbn [scan_chars].
  rewrite scan_char_sign by (try exact Hop; reflexivity).
  scan_simpl.
  rewrite <- (string_app_nil_r b) at 1.
  rewrite scan_chars_number by exact (proj1 Hb).
  scan_simpl. unfold push_back.
  rewrite string_app_assoc. cbn [append].
  replace (string_empty (dots a ++ String op (dots b))) with false;
    [reflexivity |].
  destruct (dots a); reflexivity.
Qed.

Section Merged.

Variable pow : float -> float -> float.

(** X22. Spaces right before an operator character, after a number, turn the
    operator into a sign: [a], the operator and [b] are collected into one
    token, and [evaluate] returns what [std::stod] makes of it. *)
Theorem evaluate_space_before_operator (a b : string) (op : ascii) (n : nat) :
  number a -> number b -> operator_char op = true ->
  string_length (a ++ spaces (S n) ++ String op b) < size_t_modulus ->
  infix_to_postfix (a ++ spaces (S n) ++ String op b) =
    Returns [dots a ++ String op (dots b)] /\
  evaluate pow (a ++ spaces (S n) ++ String op b) =
    match stod (dots a ++ String op (dots b)) with
    | stod_value x => Returns x
    | stod_invalid => Throws (InvalidNumber (dots a ++ String op (dots b)))
    | stod_range => Throws (NumberOutOfRange (dots a ++ String op (dots b)))
    end.
Proof.
  intros Ha Hb Hop Hfits.
  pose proof (merged_postfix a b op n Ha Hb Hop Hfits) as Hpostfix.
  split; [exact Hpostfix |].
  rewrite (evaluate_postfix pow _ _
             (string_empty_app a _ (number_nonempty a Ha)) Hpostfix).
  cbn [evaluate_loop]. unfold evaluate_token.
  replace (is_number (dots a ++ String op (dots b))) with true.
  - destruct (stod (dots a ++ String op (dots b))); reflexivity.
  - pose proof (is_number_dots a Ha) as Hnumber.
    destruct (dots a) as [| c rest]; [discriminate |].
    cbn [append is_number] in Hnumber |- *.
    destruct (isdigit c || Ascii.eqb c "."); [reflexivity |].
    cbn [orb] in Hnumber |- *. symmetry.
    clear - Hnumber. induction rest as [| c' rest IH]; [discriminate |].
    cbn [append is_number] in Hnumber |- *.
    destruct (isdigit c' || Ascii.eqb c' "."); [reflexivity |].
    cbn [orb] in Hnumber |- *. exact (IH Hnumber).
Qed.

End Merged.

(** ** The two variants on expressions without parentheses *)

Lemma string_at_paren_free (s : string) :
  forall index c,
  paren_free s = true -> string_at s index = Some c ->
  no_paren_char c = true.
Proof.
  induction s as [| c' s IH]; intros index c Hfree Hat; [discriminate |].
  cbn [paren_free] in Hfree. apply andb_prop in Hfree as [Hc' Hfree].
  cbn [string_at] in Hat. destruct (index =? 0).
  - injection Hat as <-. exact Hc'.
  - exact (IH _ _ Hfree Hat).
Qed.

Lemma no_paren_of_char (c : ascii) :
  no_paren_char c = true -> no_paren (String c "") = true.
Proof.
  unfold no_paren_char, no_paren. intros Hc.
  apply andb_prop in Hc as [Hopen Hclose].
  apply andb_true_intro. split.
  - destruct (String.eqb (String c "") "(") eqn:Heq; [| reflexivity].
    apply String.eqb_eq in Heq. injection Heq as ->. discriminate.
  - destruct (String.eqb (String c "") ")") eqn:Heq; [| reflexivity].
    apply String.eqb_eq in Heq. injection Heq as ->. discriminate.
Qed.

Lemma has_lower_precedence_agree (op1_str op2_str : string) :
  no_paren op1_str = true -> no_paren op2_str = true ->
  Legacy.has_lower_precedence op1_str op2_str =
  has_lower_precedence op1_str op2_str.
Proof.
  unfold no_paren. intros H1 H2.
  apply andb_prop in H1 as [H1o H1c]. apply andb_prop in H2 as [H2o H2c].
  apply negb_true_iff in H1o, H1c, H2o, H2c.
  unfold has_lower_precedence, Legacy.has_lower_precedence.
  rewrite H1o, H1c, H2o, H2c. reflexivity.
Qed.

(** On a stack without parentheses the two loops that pop operators do the
    same, and leave a stack without parentheses. *)
Lemma pop_operators_agree (op : string) (ops : list string) :
  forall out,
  no_paren op = true -> forallb no_paren ops = true ->
  Legacy.pop_operators op out ops = pop_operators op out ops.
Proof.
  induction ops as [| top rest IH]; intros out Hop Hops; [reflexivity |].
  cbn [forallb] in Hops. apply andb_prop in Hops as [Htop Hrest].
  cbn [Legacy.pop_operators pop_operators].
  rewrite has_lower_precedence_agree by assumption.
  unfold no_paren in Htop. apply andb_prop in Htop as [Hopen _].
  apply negb_true_iff in Hopen. rewrite Hopen.
  destruct (has_lower_precedence op top) as [[|] | e | index]; cbn [bind];
    try reflexivity.
  apply IH; assumption.
Qed.

Lemma pop_operators_no_paren (op : string) (ops : list string) :
  forall out out' ops',
  forallb no_paren ops = true ->
  pop_operators op out ops = Returns (out', ops') ->
  forallb no_paren ops' = true.
Proof.
  induction ops as [| top rest IH]; intros out out' ops' Hops Hpop.
  - cbn [pop_operators] in Hpop. injection Hpop as _ <-. reflexivity.
  - cbn [pop_operators] in Hpop.
    destruct (String.eqb top "(").
    + injection Hpop as _ <-. exact Hops.
    + destruct (has_lower_precedence op top) as [[|] | e | index];
        cbn [bind] in Hpop; try discriminate.
      * cbn [forallb] in Hops. apply andb_prop in Hops as [_ Hrest].
        exact (IH _ _ _ Hrest Hpop).
      * injection Hpop as _ <-. exact Hops.
Qed.

(** For a character that is no parenthesis and a stack without parentheses,
    the loop bodies of the two variants do the same. *)
Lemma scan_char_agree (c : ascii) (unary : outcome bool) (st : scan_state) :
  no_paren_char c = true -> forallb no_paren (Operators st) = true ->
  Legacy.scan_char c unary st = scan_char c unary st.
Proof.
  intros Hc Hops. pose proof (no_paren_of_char c Hc) as Hop.
  unfold no_paren_char in Hc. apply andb_prop in Hc as [Hopen Hclose].
  apply negb_true_iff in Hopen, Hclose.
  unfold Legacy.scan_char, scan_char. rewrite Hopen, Hclose.
  destruct (isdigit c || Ascii.eqb c "." || Ascii.eqb c ","); [reflexivity |].
  destruct (negb (Ascii.eqb c " ")); [| reflexivity].
  destruct unary as [[|] | e | index]; cbn [bind]; try reflexivity.
  rewrite pop_operators_agree by assumption. reflexivity.
Qed.

Lemma scan_char_no_paren (c : ascii) (unary : outcome bool)
    (st st' : scan_state) :
  no_paren_char c = true -> forallb no_paren (Operators st) = true ->
  scan_char c unary st = Returns st' ->
  forallb no_paren (Operators st') = true.
Proof.
  intros Hc Hops Hstep. pose proof (no_paren_of_char c Hc) as Hop.
  unfold no_paren_char in Hc. apply andb_prop in Hc as [Hopen Hclose].
  apply negb_true_iff in Hopen, Hclose.
  unfold scan_char in Hstep. rewrite Hopen, Hclose in Hstep.
  destruct (isdigit c || Ascii.eqb c "." || Ascii.eqb c ",").
  { injection Hstep as <-. exact Hops. }
  destruct (negb (Ascii.eqb c " ")).
  2: { injection Hstep as <-. exact Hops. }
  destruct unary as [[|] | e | index]; cbn [bind] in Hstep;
    try discriminate.
  { injection Hstep as <-. exact Hops. }
  destruct (pop_operators (String c "") _ (Operators st))
    as [[out' ops'] | e | index] eqn:Hpop; cbn [bind] in Hstep;
    try discriminate.
  injection Hstep as <-. cbn [Operators forallb]. rewrite Hop.
  exact (pop_operators_no_paren _ _ _ _ _ Hops Hpop).
Qed.

Lemma scan_loop_agree (expression : string) (remaining : nat) :
  forall i st,
  paren_free expression = true ->
  forallb no_paren (Operators st) = true ->
  Legacy.scan_loop expression remaining i st =
  scan_loop expression remaining i st.
Proof.
  induction remaining as [| remaining IH]; intros i st Hfree Hops;
    [reflexivity |].
  cbn [Legacy.scan_loop scan_loop]. unfold Legacy.scan_step, scan_step.
  destruct (string_at expression i) as [c |] eqn:Hat; [| reflexivity].
  pose proof (string_at_paren_free _ _ _ Hfree Hat) as Hc.
  rewrite scan_char_agree by assumption.
  destruct (scan_char c (unary_test expression i) st)
    as [st' | e | index] eqn:Hstep; cbn [bind]; try reflexivity.
  apply IH; [exact Hfree |].
  exact (scan_char_no_paren _ _ _ _ Hc Hops Hstep).
Qed.

(** X18. On an expression without parentheses the two conversions return the same
    postfix form, throw the same exception or read out of bounds alike: the
    older loop differs only in the branches of the parentheses. *)
Theorem infix_to_postfix_agree (expression : string) :
  paren_free expression = true ->
  Legacy.infix_to_postfix expression = infix_to_postfix expression.
Proof.
  intros Hfree. unfold Legacy.infix_to_postfix, infix_to_postfix.
  rewrite scan_loop_agree by (try exact Hfree; reflexivity).
  reflexivity.
Qed.

Section Agreement.

Variable pow : float -> float -> float.

Lemma evaluate_token_agree (token : string) (result result' : list float) :
  evaluate_token pow token result = Returns result' ->
  Legacy.evaluate_token pow token result = Returns result'.
Proof.
  unfold evaluate_token, Legacy.evaluate_token, Legacy.Operator_to_enum.
  destruct (is_number token).
  - destruct (stod token); [tauto | discriminate | discriminate].
  - destruct (stack_size result <? 2) eqn:Hsize; [discriminate |].
    destruct (operator_to_enum token) as [op | e | index]; cbn [bind];
      try discriminate.
    destruct result as [| num1 [| num2 rest]]; try discriminate.
    rewrite apply_operator_two, legacy_apply_Operator_two.
    destruct op; try tauto.
    destruct (num1 =? 0)%float; [discriminate | tauto].
Qed.

Lemma evaluate_loop_agree (postfix_expr : list string) :
  forall result result',
  evaluate_loop pow postfix_expr result = Returns result' ->
  Legacy.evaluate_loop pow postfix_expr result = Returns result'.
Proof.
  induction postfix_expr as [| token rest IH]; intros result result' Hloop.
  - exact Hloop.
  - cbn [evaluate_loop] in Hloop. cbn [Legacy.evaluate_loop].
    destruct (evaluate_token pow token result) as [r | e | index] eqn:Htoken;
      cbn [bind] in Hloop; try discriminate.
    rewrite (evaluate_token_agree _ _ _ Htoken). cbn [bind].
    exact (IH _ _ Hloop).
Qed.

(** X19. Whenever the variant with parentheses returns a value for an expression
    without parentheses, the older variant returns the same value. *)
Theorem evaluate_agree (expression : string) (value : float) :
  paren_free expression = true ->
  evaluate pow expression = Returns value ->
  Legacy.evaluate pow expression = Returns value.
Proof.
  intros Hfree Hvalue. unfold evaluate in Hvalue. unfold Legacy.evaluate.
  destruct (string_empty expression); [discriminate |].
  unfold Legacy.infix_to_postfix.
  rewrite scan_loop_agree by (try exact Hfree; reflexivity).
  fold (infix_to_postfix expression).
  destruct (infix_to_postfix expression) as [postfix_expr | e | index];
    cbn [bind] in Hvalue |- *; try discriminate.
  destruct (evaluate_loop pow postfix_expr []) as [result | e | index]
    eqn:Hloop; cbn [bind] in Hvalue; try discriminate.
  destruct postfix_expr as [| token rest].
  - cbn [evaluate_loop] in Hloop. injection Hloop as <-. discriminate.
  - rewrite (evaluate_loop_agree _ _ _ Hloop). cbn [bind]. exact Hvalue.
Qed.

End Agreement.

Section Difference.

Variable pow : float -> float -> float.

Lemma evaluate_token_legacy (token : string) (result result' : list float) :
  Legacy.evaluate_token pow token result = Returns result' ->
  evaluate_token pow token result = Returns result' \/
  evaluate_token pow token result = Throws DivisionByZero.
Proof.
  unfold evaluate_token, Legacy.evaluate_token, Legacy.Operator_to_enum.
  destruct (is_number token).
  - destruct (stod token); [tauto | discriminate | discriminate].
  - destruct (stack_size result <? 2) eqn:Hsize; [discriminate |].
    destruct (operator_to_enum token) as [op | e | index]; cbn [bind];
      try discriminate.
    destruct result as [| num1 [| num2 rest]]; try discriminate.
    rewrite apply_operator_two, legacy_apply_Operator_two.
    destruct op; try tauto.
    destruct (num1 =? 0)%float; tauto.
Qed.

Lemma evaluate_loop_legacy (postfix_expr : list string) :
  forall result result',
  Legacy.evaluate_loop pow postfix_expr result = Returns result' ->
  evaluate_loop pow postfix_expr result = Returns result' \/
  evaluate_loop pow postfix_expr result = Throws DivisionByZero.
Proof.
  induction postfix_expr as [| token rest IH]; intros result result' Hloop.
  - left. exact Hloop.
  - cbn [Legacy.evaluate_loop] in Hloop. cbn [evaluate_loop].
    destruct (Legacy.evaluate_token pow token result) as [r | e | index]
      eqn:Htoken; cbn [bind] in Hloop; try discriminate.
    destruct (evaluate_token_legacy _ _ _ Htoken) as [-> | ->]; cbn [bind].
    + exact (IH _ _ Hloop).
    + right. reflexivity.
Qed.

(** X20. Whenever the older variant returns a value for an expression without
    parentheses, the variant with parentheses returns the same value or
    fails with the division error: the guard is their only difference
    there. *)
Theorem evaluate_legacy_value (expression : string) (value : float) :
  paren_free expression = true ->
  Legacy.evaluate pow expression = Returns value ->
  evaluate pow expression = Returns value \/
  evaluate pow expression = Throws DivisionByZero.
Proof.
  intros Hfree Hvalue. unfold Legacy.evaluate in Hvalue. unfold evaluate.
  unfold Legacy.infix_to_postfix in Hvalue.
  rewrite scan_loop_agree in Hvalue by (try exact Hfree; reflexivity).
  fold (infix_to_postfix expression) in Hvalue.
  destruct expression as [| c rest]; [discriminate |].
  cbn [string_empty].
  destruct (infix_to_postfix (String c rest)) as [postfix_expr | e | index];
    cbn [bind] in Hvalue |- *; try discriminate.
  destruct postfix_expr as [| token tokens]; [discriminate |].
  destruct (Legacy.evaluate_loop pow (token :: tokens) [])
    as [result | e | index] eqn:Hloop; cbn [bind] in Hvalue;
    try discriminate.
  destruct (evaluate_loop_legacy _ _ _ Hloop) as [-> | ->]; cbn [bind].
  - left. exact Hvalue.
  - right. reflexivity.
Qed.

(** *** The operand stack *)

Lemma stack_size_cons (x : float) (result : list float) :
  stack_size (x :: result) = stack_size result + 1.
Proof.
  unfold stack_size. cbn [List.length]. lia.
Qed.

(** Each number of the postfix form adds one operand, each operator takes
    one away. *)
Lemma evaluate_loop_stack_size (postfix_expr : list string) :
  forall result result',
  evaluate_loop pow postfix_expr result = Returns result' ->
  stack_size result' =
  stack_size result + count_numbers postfix_expr
  - count_operators postfix_expr.
Proof.
  unfold count_numbers, count_operators.
  induction postfix_expr as [| token rest IH]; intros result result' Hloop.
  - cbn [evaluate_loop] in Hloop. injection Hloop as <-.
    cbn [filter List.length]. lia.
  - cbn [evaluate_loop] in Hloop.
    destruct (evaluate_token pow token result) as [r | e | index] eqn:Htoken;
      cbn [bind] in Hloop; try discriminate.
    rewrite (IH _ _ Hloop). cbn [filter].
    unfold evaluate_token in Htoken.
    destruct (is_number token); cbn [negb List.length].
    + destruct (stod token); try discriminate.
      injection Htoken as <-. rewrite stack_size_cons. lia.
    + destruct (stack_size result <? 2); [discriminate |].
      destruct (operator_to_enum token) as [op | e | index];
        cbn [bind] in Htoken; try discriminate.
      destruct result as [| num1 [| num2 rest']].
      * unfold apply_operator in Htoken. discriminate.
      * unfold apply_operator in Htoken. discriminate.
      * rewrite apply_operator_binary in Htoken.
        destruct (binary pow op num2 num1) as [v | e | index];
          cbn [bind] in Htoken; try discriminate.
        injection Htoken as <-. rewrite !stack_size_cons. lia.
Qed.

(** X16. [evaluate] returns a value only for an expression whose postfix form
    has one number more than it has operators. *)
Theorem evaluate_returns_balanced (expression : string) (value : float) :
  evaluate pow expression = Returns value ->
  exists postfix_expr,
    infix_to_postfix expression = Returns postfix_expr /\
    count_numbers postfix_expr = count_operators postfix_expr + 1.
Proof.
  unfold evaluate. intros Hvalue.
  destruct (string_empty expression); [discriminate |].
  destruct (infix_to_postfix expression) as [postfix_expr | e | index];
    cbn [bind] in Hvalue; try discriminate.
  exists postfix_expr. split; [reflexivity |].
  destruct (evaluate_loop pow postfix_expr []) as [result | e | index]
    eqn:Hloop; cbn [bind] in Hvalue; try discriminate.
  pose proof (evaluate_loop_stack_size _ _ _ Hloop) as Hsize.
  destruct (stack_size result =? 1) eqn:Hone; [| discriminate].
  apply Z.eqb_eq in Hone. rewrite Hone in Hsize.
  change (stack_size []) with 0 in Hsize. lia.
Qed.

End Difference.

(** ** The closing parenthesis *)

Lemma pop_until_paren_empty (ops : list string) :
  forall out,
  snd (pop_until_paren out ops) = [] <-> ~ In "(" ops.
Proof.
  induction ops as [| top rest IH]; intros out; cbn [pop_until_paren].
  - split; [intros _ [] | reflexivity].
  - destruct (String.eqb top "(") eqn:Htop.
    + apply String.eqb_eq in Htop. subst top. cbn [snd In]. split.
      * discriminate.
      * intros Hnot. exfalso. apply Hnot. left. reflexivity.
    + apply String.eqb_neq in Htop. rewrite IH. cbn [In]. split.
      * intros Hnot [Heq | Hin]; [exact (Htop Heq) | exact (Hnot Hin)].
      * intros Hnot Hin. apply Hnot. right. exact Hin.
Qed.

(** X10. The branch of the closing parenthesis throws exactly when the operator
    stack holds no opening parenthesis. *)
Theorem close_paren_throws_iff (unary : outcome bool) (st : scan_state) :
  scan_char ")" unary st = Throws MismatchedParentheses <->
  ~ In "(" (Operators st).
Proof.
  rewrite <- (pop_until_paren_empty (Operators st)
                (if negb (string_empty (current_num st))
                 then current_num st :: output st else output st)).
  unfold scan_char.
  replace (isdigit ")" || Ascii.eqb ")" "." || Ascii.eqb ")" ",")
    with false by reflexivity.
  replace (Ascii.eqb ")" "(") with false by reflexivity.
  replace (Ascii.eqb ")" ")") with true by reflexivity.
  destruct (pop_until_paren _ (Operators st)) as [out' [| top ops']];
    cbn [snd]; split; intro H; try reflexivity; discriminate H.
Qed.

(** ** A closing parenthesis in the older variant *)

Lemma legacy_scan_loop_chars (suffix : string) :
  forall (pre : string) (p : ascii) (st : scan_state),
  string_length (pre ++ String p suffix) < size_t_modulus ->
  Legacy.scan_loop (pre ++ String p suffix) (String.length suffix)
    (string_length pre + 1) st =
  legacy_scan_chars p suffix st.
Proof.
  induction suffix as [| c suffix IH]; intros pre p st Hfits.
  - reflexivity.
  - cbn [String.length Legacy.scan_loop legacy_scan_chars].
    pose proof (string_length_nonneg pre) as Hpre.
    rewrite string_length_app, !string_length_cons in Hfits.
    pose proof (string_length_nonneg suffix) as Hsuffix.
    assert (Hstep : Legacy.scan_step (pre ++ String p (String c suffix))
                      (string_length pre + 1) st =
                    Legacy.scan_char c (Returns (negb (isdigit p))) st).
    { unfold Legacy.scan_step, unary_test.
      rewrite string_at_app by lia.
      rewrite size_t_wrap_never_negative, size_t_wrap_before by lia.
      replace (string_length pre + 1 - 1) with (string_length pre + 0) by lia.
      rewrite string_at_app by lia. reflexivity. }
    rewrite Hstep.
    destruct (Legacy.scan_char c (Returns (negb (isdigit p))) st)
      as [st' | e | index]; cbn [bind]; try reflexivity.
    replace (pre ++ String p (String c suffix))
      with ((pre ++ String p "") ++ String c suffix)
      by (rewrite string_app_assoc; reflexivity).
    replace (string_length pre + 1 + 1)
      with (string_length (pre ++ String p "") + 1)
      by (rewrite string_length_app, string_length_cons;
          change (string_length "") with 0; lia).
    apply IH.
    rewrite !string_length_app, !string_length_cons.
    change (string_length "") with 0. lia.
Qed.

(** Without parentheses in the characters or on the stack, the older scan is
    the scan of the other variant. *)
Lemma legacy_scan_chars_agree (s : string) :
  forall (before : ascii) (st : scan_state),
  paren_free s = true -> forallb no_paren (Operators st) = true ->
  legacy_scan_chars before s st = scan_chars before s st.
Proof.
  induction s as [| c s IH]; intros before st Hfree Hops; [reflexivity |].
  cbn [paren_free] in Hfree. apply andb_prop in Hfree as [Hc Hfree].
  cbn [legacy_scan_chars scan_chars].
  rewrite scan_char_agree by assumption.
  destruct (scan_char c _ st) as [st' | e | index] eqn:Hstep; cbn [bind];
    try reflexivity.
  apply IH; [exact Hfree |].
  exact (scan_char_no_paren _ _ _ _ Hc Hops Hstep).
Qed.

Lemma legacy_scan_chars_app (s1 : string) :
  forall (before : ascii) (s2 : string) (st : scan_state),
  legacy_scan_chars before (s1 ++ s2) st =
  (st' <- legacy_scan_chars before s1 st ;;
   legacy_scan_chars (last_char before s1) s2 st').
Proof.
  induction s1 as [| c s1 IH]; intros before s2 st.
  - reflexivity.
  - cbn [append legacy_scan_chars last_char].
    destruct (Legacy.scan_char c _ st) as [st' | e | index]; cbn [bind];
      [apply IH | reflexivity | reflexivity].
Qed.

Lemma number_paren_free (s : string) :
  all_number_chars s = true -> paren_free s = true.
Proof.
  induction s as [| c s IH]; intros Hs; [reflexivity |].
  cbn [all_number_chars] in Hs. apply andb_prop in Hs as [Hc Hs].
  cbn [paren_free]. rewrite (IH Hs), andb_true_r.
  unfold number_char in Hc. unfold no_paren_char.
  destruct (Ascii.eqb c "(") eqn:Hopen.
  { apply Ascii.eqb_eq in Hopen. subst c. discriminate. }
  destruct (Ascii.eqb c ")") eqn:Hclose.
  { apply Ascii.eqb_eq in Hclose. subst c. discriminate. }
  reflexivity.
Qed.

(** The scan of [a op b] ends with [a] on the output, [op] on the operator
    stack and the literal of [b] pending. *)
Lemma scan_chars_one_operator (a b : string) (op before : ascii) :
  number a -> number b -> operator_char op = true ->
  scan_chars before (a ++ String op b) initial_state =
  Returns {| output := [dots a]; Operators := [String op ""];
             current_num := dots b; previous_num := true |}.
Proof.
  intros Ha Hb Hop.
  rewrite scan_chars_number by exact (proj1 Ha).
  cbn [scan_chars].
  rewrite scan_char_binary
    by (try exact Hop; apply number_last_digit; exact Ha).
  unfold after_number.
  cbn [output Operators current_num previous_num initial_state append orb].
  rewrite (number_nonempty a Ha).
  cbn [negb pop_operators bind].
  rewrite <- (string_app_nil_r b) at 1.
  rewrite scan_chars_number by exact (proj1 Hb).
  cbn [scan_chars]. unfold after_number.
  cbn [output Operators current_num previous_num append orb].
  rewrite (number_nonempty b Hb). reflexivity.
Qed.

Lemma legacy_scan_char_without_test (c : ascii)
    (unary unary' : outcome bool) (st : scan_state) :
  legacy_operator_char c = false ->
  Legacy.scan_char c unary st = Legacy.scan_char c unary' st.
Proof.
  intros Hop. unfold Legacy.scan_char. unfold legacy_operator_char in Hop.
  destruct (isdigit c || Ascii.eqb c "." || Ascii.eqb c ","); [reflexivity |].
  destruct (Ascii.eqb c " "); [reflexivity | discriminate].
Qed.

Lemma legacy_infix_to_postfix_scan_chars (c before : ascii) (rest : string) :
  string_length (String c rest) < size_t_modulus ->
  legacy_operator_char c = false ->
  Legacy.infix_to_postfix (String c rest) =
  (st <- legacy_scan_chars before (String c rest) initial_state ;;
   Returns (finish_scan st)).
Proof.
  intros Hfits Hop. unfold Legacy.infix_to_postfix.
  cbn [String.length Legacy.scan_loop legacy_scan_chars].
  unfold Legacy.scan_step. cbn [string_at]. rewrite Z.eqb_refl.
  rewrite (legacy_scan_char_without_test c _
             (Returns (negb (isdigit before))) initial_state Hop).
  destruct (Legacy.scan_char c _ initial_state) as [st' | e | index];
    cbn [bind]; try reflexivity.
  exact (f_equal (fun m => bind m (fun st => Returns (finish_scan st)))
           (legacy_scan_loop_chars rest "" c st' Hfits)).
Qed.

Lemma paren_free_one_operator (a b : string) (op : ascii) :
  number a -> number b -> operator_char op = true ->
  paren_free (a ++ String op b) = true.
Proof.
  intros Ha Hb Hop.
  pose proof (number_paren_free a (proj1 Ha)) as Hfa.
  pose proof (number_paren_free b (proj1 Hb)) as Hfb.
  clear Ha Hb. induction a as [| c a IH].
  - cbn [append paren_free]. rewrite Hfb, andb_true_r.
    unfold operator_char in Hop. unfold no_paren_char.
    destruct (Ascii.eqb op "(");
      [rewrite !andb_false_r in Hop; discriminate |].
    destruct (Ascii.eqb op ")");
      [rewrite !andb_false_r in Hop; discriminate |].
    reflexivity.
  - cbn [append paren_free] in Hfa |- *.
    apply andb_prop in Hfa as [Hc Hfa]. rewrite Hc. exact (IH Hfa).
Qed.

Lemma last_char_app (s1 s2 : string) (before : ascii) :
  string_empty s2 = false ->
  last_char before (s1 ++ s2) = last_char before s2.
Proof.
  intros Hnonempty. revert before.
  induction s1 as [| c s1 IH]; intros before; [reflexivity |].
  cbn [append last_char]. rewrite IH.
  apply last_char_nonempty. exact Hnonempty.
Qed.

Lemma number_not_legacy_operator (s : string) :
  number s -> exists c s', s = String c s' /\ legacy_operator_char c = false.
Proof.
  intros Hs. destruct (number_first s Hs) as (c & s' & -> & Hc).
  exists c, s'. split; [reflexivity |].
  unfold legacy_operator_char. unfold number_char in Hc.
  rewrite Hc. reflexivity.
Qed.

Section LegacyParenthesis.

Variable pow : float -> float -> float.

(** X23. The older variant has no branch for parentheses: a closing parenthesis
    after [a op b] is compared as an operator with [op], and the lookup of
    [")"] in the table throws [std::out_of_range], where the variant with
    parentheses reports mismatched parentheses. *)
Theorem legacy_close_paren_out_of_range (a b rest : string) (op : ascii) :
  number a -> number b -> operator_char op = true ->
  string_length (a ++ String op (b ++ String ")" rest)) < size_t_modulus ->
  Legacy.evaluate pow (a ++ String op (b ++ String ")" rest)) =
    Throws (map_out_of_range ")") /\
  evaluate pow (a ++ String op (b ++ String ")" rest)) =
    Throws MismatchedParentheses.
Proof.
  intros Ha Hb Hop Hfits.
  pose proof (paren_free_one_operator a b op Ha Hb Hop) as Hfree.
  assert (Hsplit : a ++ String op (b ++ String ")" rest) =
                   (a ++ String op b) ++ String ")" rest).
  { rewrite string_app_assoc. reflexivity. }
  assert (Hlast : isdigit (last_char " " (a ++ String op b)) = true).
  { rewrite (last_char_app a (String op b) " ") by reflexivity.
    cbn [last_char]. apply number_last_digit. exact Hb. }
  rewrite Hsplit in Hfits |- *.
  destruct (number_not_legacy_operator a Ha) as (c & a' & Heq & Hc).
  split.
  - unfold Legacy.evaluate.
    replace (Legacy.infix_to_postfix ((a ++ String op b) ++ String ")" rest))
      with (@Throws (list string) (map_out_of_range ")")); [reflexivity |].
    subst a. cbn [append] in Hfits |- *.
    rewrite (legacy_infix_to_postfix_scan_chars c " " _ Hfits Hc).
    change (String c ((a' ++ String op b) ++ String ")" rest))
      with ((String c a' ++ String op b) ++ String ")" rest).
    rewrite legacy_scan_chars_app.
    rewrite legacy_scan_chars_agree by (try exact Hfree; reflexivity).
    rewrite scan_chars_one_operator by assumption.
    cbn [bind legacy_scan_chars]. rewrite Hlast. cbn [negb].
    unfold Legacy.scan_char.
    replace (isdigit ")" || Ascii.eqb ")" "." || Ascii.eqb ")" ",")
      with false by reflexivity.
    replace (negb (Ascii.eqb ")" " ")) with true by reflexivity.
    cbn [bind previous_num Operators Legacy.pop_operators].
    unfold Legacy.has_lower_precedence.
    replace (map_at operator_properties ")")
      with (@Throws OperatorProperty (map_out_of_range ")"))
      by reflexivity.
    reflexivity.
  - unfold evaluate.
    rewrite (string_empty_app _ (String ")" rest)
               (string_empty_app a (String op b) (number_nonempty a Ha))).
    replace (infix_to_postfix ((a ++ String op b) ++ String ")" rest))
      with (@Throws (list string) MismatchedParentheses); [reflexivity |].
    rewrite infix_to_postfix_cases with (before := " "%char) by exact Hfits.
    replace (starts_with_operator ((a ++ String op b) ++ String ")" rest))
      with false.
    2: { subst a. cbn [append starts_with_operator].
         unfold legacy_operator_char in Hc. unfold operator_char.
         destruct (isdigit c || Ascii.eqb c "." || Ascii.eqb c ",");
           [reflexivity |].
         cbn [negb andb] in Hc |- *.
         destruct (Ascii.eqb c " "); [| discriminate].
         rewrite !andb_false_r. reflexivity. }
    rewrite scan_chars_app, scan_chars_one_operator by assumption.
    cbn [bind scan_chars].
    unfold scan_char.
    replace (isdigit ")" || Ascii.eqb ")" "." || Ascii.eqb ")" ",")
      with false by reflexivity.
    replace (Ascii.eqb ")" "(") with false by reflexivity.
    replace (Ascii.eqb ")" ")") with true by reflexivity.
    cbn [current_num output Operators pop_until_paren].
    rewrite (proj1 (operator_char_not_paren op Hop)).
    cbn [pop_until_paren bind]. reflexivity.
Qed.

End LegacyParenthesis.

(** ** The exceptions that leave [evaluate] *)

Ltac own := cbn [throws_own]; first [exact I | constructor].

Lemma throws_own_bind {A B : Type} (m : outcome A) (k : A -> outcome B) :
  throws_own m -> (forall a, throws_own (k a)) -> throws_own (bind m k).
Proof.
  intros Hm Hk. destruct m as [a | e | index]; cbn [bind]; auto.
Qed.

Lemma map_at_throws_own (table : list (string * OperatorProperty))
    (key : string) : throws_own (map_at table key).
Proof.
  induction table as [| [k v] table IH]; cbn [map_at].
  - own.
  - destruct (String.eqb k key); [own | exact IH].
Qed.

Lemma has_lower_precedence_throws_own (op1_str op2_str : string) :
  throws_own (has_lower_precedence op1_str op2_str).
Proof.
  unfold has_lower_precedence.
  destruct (_ || _); [own |].
  apply throws_own_bind; [apply map_at_throws_own | intros op1].
  apply throws_own_bind; [apply map_at_throws_own | intros op2].
  destruct (priority op1 =? priority op2); own.
Qed.

Lemma pop_operators_throws_own (op : string) (ops : list string) :
  forall out, throws_own (pop_operators op out ops).
Proof.
  induction ops as [| top rest IH]; intros out; cbn [pop_operators].
  - own.
  - destruct (String.eqb top "("); [own |].
    apply throws_own_bind; [apply has_lower_precedence_throws_own |].
    intros [|]; [apply IH | own].
Qed.

Lemma unary_test_throws_own (expression : string) (i : Z) :
  throws_own (unary_test expression i).
Proof.
  unfold unary_test. destruct (_ <? 0); [own |].
  destruct (string_at expression _); own.
Qed.

Lemma scan_step_throws_own (expression : string) (i : Z) (st : scan_state) :
  throws_own (scan_step expression i st).
Proof.
  unfold scan_step. destruct (string_at expression i) as [c |]; [| own].
  unfold scan_char.
  destruct (_ || _); [own |].
  destruct (Ascii.eqb c "("); [own |].
  destruct (Ascii.eqb c ")").
  - destruct (pop_until_paren _ _) as [out' [| top ops]]; own.
  - destruct (negb (Ascii.eqb c " ")); [| own].
    apply throws_own_bind; [apply unary_test_throws_own |].
    intros [|]; [own |].
    apply throws_own_bind; [apply pop_operators_throws_own |].
    intros [out' ops]. own.
Qed.

Lemma scan_loop_throws_own (expression : string) (remaining : nat) :
  forall i st, throws_own (scan_loop expression remaining i st).
Proof.
  induction remaining as [| remaining IH]; intros i st; [own |].
  cbn [scan_loop]. apply throws_own_bind; [apply scan_step_throws_own |].
  intros st'. apply IH.
Qed.

Lemma infix_to_postfix_throws_own (expression : string) :
  throws_own (infix_to_postfix expression).
Proof.
  unfold infix_to_postfix.
  apply throws_own_bind; [apply scan_loop_throws_own | intros st; own].
Qed.

Section OwnExceptions.

Variable pow : float -> float -> float.

(** The test of [evaluate] for two operands comes first: the same test in
    [apply_operator] never fails there. *)
Lemma evaluate_token_throws_own (token : string) (result : list float) :
  throws_own (evaluate_token pow token result).
Proof.
  unfold evaluate_token. destruct (is_number token).
  - destruct (stod token); own.
  - destruct (stack_size result <? 2) eqn:Hsize; [own |].
    apply throws_own_bind.
    + unfold operator_to_enum.
      repeat match goal with
      | |- throws_own (if ?b then _ else _) => destruct b; [own |]
      end.
      own.
    + intros op. unfold apply_operator. rewrite Hsize.
      destruct result as [| num1 [| num2 rest]]; try own.
      destruct op; try own.
      destruct (num1 =? 0)%float; own.
Qed.

Lemma evaluate_loop_throws_own (postfix_expr : list string) :
  forall result, throws_own (evaluate_loop pow postfix_expr result).
Proof.
  induction postfix_expr as [| token rest IH]; intros result; [own |].
  cbn [evaluate_loop].
  apply throws_own_bind; [apply evaluate_token_throws_own |].
  intros result'. apply IH.
Qed.

Lemma evaluate_throws_only (expression : string) :
  throws_own (evaluate pow expression).
Proof.
  unfold evaluate. destruct (string_empty expression); [own |].
  apply throws_own_bind; [apply infix_to_postfix_throws_own |].
  intros postfix_expr.
  apply throws_own_bind; [apply evaluate_loop_throws_own |].
  intros result. destruct (negb _); [own |].
  destruct result; own.
Qed.

(** X17. Whatever [evaluate] throws is one of its nine errors: the exceptions of
    [std::stod] never leave it, and neither does the error of
    [apply_operator] for a stack of fewer than two operands. *)
Theorem evaluate_throws_own (expression : string) (e : exception) :
  evaluate pow expression = Throws e ->
  (e = EmptyExpression \/
   e = MismatchedParentheses \/
   (exists key, e = map_out_of_range key) \/
   (exists token, e = InvalidNumber token) \/
   (exists token, e = NumberOutOfRange token) \/
   e = InsufficientOperands \/
   (exists op, e = InvalidOperator op) \/
   e = DivisionByZero \/
   e = MalformedExpression) /\
  e <> stod_invalid_argument /\
  e <> stod_out_of_range /\
  e <> runtime_error "Not enough operands to perform operation".
Proof.
  intros Hthrows.
  pose proof (evaluate_throws_only expression) as Hown.
  rewrite Hthrows in Hown. cbn [throws_own] in Hown.
  split; [| destruct Hown; repeat split; discriminate].
  destruct Hown; eauto 12.
Qed.

End OwnExceptions.

(** ** The reads of the older variant *)

(** X2. The older conversion reads outside the expression exactly when the
    expression starts with a character of its operator branch, a
    parenthesis included, and then at index [2^64 - 1]. *)
Theorem legacy_infix_to_postfix_out_of_bounds_iff (expression : string)
    (index : Z) :
  string_length expression < size_t_modulus ->
  Legacy.infix_to_postfix expression = OutOfBounds index <->
  index = size_t_modulus - 1 /\
  exists c rest,
    expression = String c rest /\ legacy_operator_char c = true.
Proof.
  intros Hfits. split.
  - intros Hout. destruct expression as [| c rest]; [discriminate |].
    destruct (legacy_operator_char c) eqn:Hop.
    + rewrite legacy_infix_to_postfix_first_operator in Hout by assumption.
      injection Hout as <-. split; [reflexivity |].
      exists c, rest. split; [reflexivity | exact Hop].
    + pose proof (legacy_infix_to_postfix_first_other c rest Hfits Hop) as Hin.
      rewrite Hout in Hin. destruct Hin.
  - intros [-> (c & rest & -> & Hop)].
    apply legacy_infix_to_postfix_first_operator; assumption.
Qed.

(** ** Instances

    Each property that has hypotheses, applied to a concrete expression. *)

Ltac instance_side := first [split; reflexivity | vm_compute; reflexivity].

Lemma infix_to_postfix_out_of_bounds_iff_witness :
  infix_to_postfix "+7" = OutOfBounds (size_t_modulus - 1) <->
  size_t_modulus - 1 = size_t_modulus - 1 /\
  exists c rest, "+7" = String c rest /\ operator_char c = true.
Proof.
  apply (infix_to_postfix_out_of_bounds_iff "+7" (size_t_modulus - 1)).
  vm_compute; reflexivity.
Defined.

Lemma legacy_infix_to_postfix_out_of_bounds_iff_witness :
  Legacy.infix_to_postfix "(1)" = OutOfBounds (size_t_modulus - 1) <->
  size_t_modulus - 1 = size_t_modulus - 1 /\
  exists c rest, "(1)" = String c rest /\ legacy_operator_char c = true.
Proof.
  apply (legacy_infix_to_postfix_out_of_bounds_iff "(1)" (size_t_modulus - 1)).
  vm_compute; reflexivity.
Defined.

Lemma evaluate_literal_witness :
  infix_to_postfix "1,5" = Returns ["1.5"] /\
  evaluate integral_pow "1,5" = Returns 1.5%float.
Proof.
  apply (evaluate_literal integral_pow "1,5"); vm_compute; reflexivity.
Defined.

Lemma evaluate_one_operator_witness :
  infix_to_postfix "7-9" = Returns ["7"; "9"; "-"] /\
  evaluate integral_pow "7-9" = Returns (-2)%float.
Proof.
  apply (evaluate_one_operator integral_pow "7" "9" "-" 7 9);
    instance_side.
Defined.

Lemma infix_to_postfix_two_operators_witness :
  infix_to_postfix "2*3+4" = Returns ["2"; "3"; "*"; "4"; "+"].
Proof.
  apply (infix_to_postfix_two_operators "2" "3" "4" "*" "+"
           {| priority := 2; left_associative := true |}
           {| priority := 1; left_associative := true |});
    instance_side.
Defined.

Lemma evaluate_two_operators_witness :
  evaluate integral_pow "8-4/2" = Returns 6%float.
Proof.
  apply (evaluate_two_operators integral_pow "8" "4" "2" "-" "/"
           Subtraction Division 8 4 2);
    instance_side.
Defined.

Lemma evaluate_signed_operand_witness :
  infix_to_postfix "6/-3" = Returns ["6"; "-3"; "/"] /\
  evaluate integral_pow "6/-3" = Returns (-2)%float.
Proof.
  apply (evaluate_signed_operand integral_pow "6" "3" "/" "-" Division 6 (-3));
    instance_side.
Defined.

Lemma evaluate_parenthesised_operand_witness :
  infix_to_postfix "2*(3+4)" = Returns ["2"; "3"; "4"; "+"; "*"] /\
  evaluate integral_pow "2*(3+4)" = Returns 14%float.
Proof.
  apply (evaluate_parenthesised_operand integral_pow "3" "4" "2" "+" "*"
           Addition Multiplication 3 4 2);
    instance_side.
Defined.

Lemma evaluate_unmatched_close_witness :
  infix_to_postfix "1)+2" = Throws MismatchedParentheses /\
  evaluate integral_pow "1)+2" = Throws MismatchedParentheses.
Proof.
  apply (evaluate_unmatched_close integral_pow "1" "+2"); instance_side.
Defined.

Lemma evaluate_missing_operator_witness :
  infix_to_postfix "1+2%3" = Throws (map_out_of_range "%") /\
  evaluate integral_pow "1+2%3" = Throws (map_out_of_range "%").
Proof.
  apply (evaluate_missing_operator integral_pow "1" "2" "3" "+" "%");
    instance_side.
Defined.

Lemma evaluate_ignores_spaces_witness :
  infix_to_postfix "1+  2" = infix_to_postfix "1+2" /\
  evaluate integral_pow "1+  2" = evaluate integral_pow "1+2".
Proof.
  apply (evaluate_ignores_spaces integral_pow "1+" "2" 2); instance_side.
Defined.

Lemma tie_pops_left_associative_witness :
  left_associative {| priority := 1; left_associative := true |} =
  left_associative {| priority := 1; left_associative := true |} /\
  has_lower_precedence "-" "+" =
  Returns (left_associative {| priority := 1; left_associative := true |}).
Proof.
  apply (tie_pops_left_associative "-" "+"
           {| priority := 1; left_associative := true |}
           {| priority := 1; left_associative := true |});
    reflexivity.
Defined.

Lemma evaluate_division_by_zero_witness :
  evaluate integral_pow "8/4/0" = Throws DivisionByZero.
Proof.
  apply (evaluate_division_by_zero integral_pow "8/4/0"
           ["8"; "4"; "/"; "0"] [] 0 2 []);
    vm_compute; reflexivity.
Defined.

Lemma evaluate_returns_balanced_witness :
  exists postfix_expr,
    infix_to_postfix "2+3*4" = Returns postfix_expr /\
    count_numbers postfix_expr = count_operators postfix_expr + 1.
Proof.
  apply (evaluate_returns_balanced integral_pow "2+3*4" 14).
  vm_compute; reflexivity.
Defined.

Lemma evaluate_throws_own_witness :
  map_out_of_range "%" <> stod_invalid_argument /\
  map_out_of_range "%" <> stod_out_of_range /\
  map_out_of_range "%" <>
    runtime_error "Not enough operands to perform operation".
Proof.
  apply (evaluate_throws_own integral_pow "1+2%3" (map_out_of_range "%")).
  vm_compute; reflexivity.
Defined.

Lemma infix_to_postfix_agree_witness :
  Legacy.infix_to_postfix "2^3^2" = infix_to_postfix "2^3^2".
Proof.
  apply (infix_to_postfix_agree "2^3^2"). reflexivity.
Defined.

Lemma evaluate_agree_witness :
  Legacy.evaluate integral_pow "2+3*4" = Returns 14%float.
Proof.
  apply (evaluate_agree integral_pow "2+3*4" 14); vm_compute; reflexivity.
Defined.

Lemma evaluate_legacy_value_witness :
  evaluate integral_pow "1/0" = Returns infinity \/
  evaluate integral_pow "1/0" = Throws DivisionByZero.
Proof.
  apply (evaluate_legacy_value integral_pow "1/0" infinity);
    vm_compute; reflexivity.
Defined.

Lemma evaluate_space_before_operator_witness :
  infix_to_postfix "4  *5" = Returns ["4*5"] /\
  evaluate integral_pow "4  *5" = Returns 4%float.
Proof.
  apply (evaluate_space_before_operator integral_pow "4" "5" "*" 1);
    instance_side.
Defined.

Lemma legacy_close_paren_out_of_range_witness :
  Legacy.evaluate integral_pow "1+2)" = Throws (map_out_of_range ")") /\
  evaluate integral_pow "1+2)" = Throws MismatchedParentheses.
Proof.
  apply (legacy_close_paren_out_of_range integral_pow "1" "2" "" "+");
    instance_side.
Defined.
